(** * snowflake-migration: the Redshift-to-Snowflake dialect rewriter

    A shallow embedding of [parser/snowflake_parser.py].  The module rewrites
    SQL text with an ordered list of rules; all rules but one are chains of
    [re.sub] calls, so the definitions come in three layers:

    - [Chars]: the character predicates Python's [str] and [re] use, and
      a few functions on texts;
    - [Re]: the fragment of Python's [re] the module relies on (a
      backtracking matcher, [re.compile] and [re.sub]);
    - [Rewriter]: the sixteen rules, the registry [parsers] and the driver
      [parse_redshift_to_snowflake].

    [Compiled] names the compiled form of the patterns the proofs look
    into.  The lemmas follow in [TextFacts], [ReFacts], [DriverFacts] and
    [RuleFacts], and the properties of the rewriter close the file.

    Texts are [string]s, i.e. sequences of 8-bit characters read as the code
    points 0..255 (Latin-1); Python's [str] behaviour on code points above 255
    is outside the model. *)

From Stdlib Require Import String Ascii List Arith Bool Lia.
Import ListNotations.
Local Open Scope string_scope.
Local Open Scope nat_scope.

(** ** Python results *)

(** A call either returns a value or raises an [Exception], which the model
    keeps as its message. *)
Definition exn := string.

Inductive result (A : Type) :=
| Ok (a : A)
| Raise (e : exn).

Arguments Ok {A} a.
Arguments Raise {A} e.

Definition bind {A B : Type} (m : result A) (f : A -> result B) : result B :=
  match m with
  | Ok a => f a
  | Raise e => Raise e
  end.

Notation "x <- m ;; k" := (bind m (fun x => k))
  (at level 61, m at next level, right associativity).

(** ** Characters *)

Module Chars.

Definition code (c : ascii) : nat := nat_of_ascii c.

Definition between (lo hi : nat) (c : ascii) : bool :=
  (lo <=? code c) && (code c <=? hi).

(** [str.isspace] / [\s] on the code points below 256. *)
Definition is_space (c : ascii) : bool :=
  between 9 13 c || between 28 32 c || (code c =? 133) || (code c =? 160).

(** [\d]: the decimal digits. *)
Definition is_digit (c : ascii) : bool := between 48 57 c.

Definition is_upper (c : ascii) : bool :=
  between 65 90 c || between 192 214 c || between 216 222 c.

Definition is_lower (c : ascii) : bool :=
  between 97 122 c || between 224 246 c || between 248 254 c.

(** [str.isalnum] on the code points below 256. *)
Definition is_alnum (c : ascii) : bool :=
  is_digit c || between 65 90 c || between 97 122 c
  || (code c =? 170) || (code c =? 178) || (code c =? 179) || (code c =? 181)
  || (code c =? 185) || (code c =? 186) || between 188 190 c
  || between 192 214 c || between 216 246 c || between 248 255 c.

(** [\w]: alphanumeric or underscore. *)
Definition is_word (c : ascii) : bool := is_alnum c || (code c =? 95).

Definition to_lower (c : ascii) : ascii :=
  if is_upper c then ascii_of_nat (code c + 32) else c.

Definition to_upper (c : ascii) : ascii :=
  if is_lower c then ascii_of_nat (code c - 32) else c.

Definition newline : ascii := ascii_of_nat 10.
Definition carriage_return : ascii := ascii_of_nat 13.

Definition is_newline (c : ascii) : bool := code c =? 10.

(** Slices of a text: [s[:n]] and [s[n:]]. *)
Fixpoint take (n : nat) (s : string) : string :=
  match n, s with
  | S m, String c s' => String c (take m s')
  | _, _ => EmptyString
  end.

Fixpoint drop (n : nat) (s : string) : string :=
  match n, s with
  | S m, String _ s' => drop m s'
  | _, _ => s
  end.

(** [s.count("\n")] *)
Fixpoint count_newlines (s : string) : nat :=
  match s with
  | EmptyString => 0
  | String c s' => (if is_newline c then 1 else 0) + count_newlines s'
  end.

(** [s.rfind(c)] *)
Fixpoint rindex (c : ascii) (s : string) : option nat :=
  match s with
  | EmptyString => None
  | String d s' =>
      match rindex c s' with
      | Some j => Some (S j)
      | None => if Ascii.eqb d c then Some 0 else None
      end
  end.

(** Every character of [s] passes [p]. *)
Fixpoint all_chars (p : ascii -> bool) (s : string) : bool :=
  match s with
  | EmptyString => true
  | String c s' => p c && all_chars p s'
  end.

(** [s] is empty or its first character fails [p]. *)
Definition stops (p : ascii -> bool) (s : string) : bool :=
  match s with
  | EmptyString => true
  | String c _ => negb (p c)
  end.

(** The last character of [s] passes [p]. *)
Fixpoint ends_in (p : ascii -> bool) (s : string) : bool :=
  match s with
  | EmptyString => false
  | String c EmptyString => p c
  | String _ s' => ends_in p s'
  end.

Definition ends_in_space (s : string) : bool := ends_in is_space s.

(** A non-empty run of [\w] characters. *)
Definition is_identifier (s : string) : bool :=
  match s with
  | EmptyString => false
  | String _ _ => all_chars is_word s
  end.

(** A non-empty run of decimal digits. *)
Definition is_number (s : string) : bool :=
  match s with
  | EmptyString => false
  | String _ _ => all_chars is_digit s
  end.

(** Parentheses nest properly, starting from [depth] open ones. *)
Fixpoint parens_from (depth : nat) (s : string) : bool :=
  match s with
  | EmptyString => depth =? 0
  | String c s' =>
      if Ascii.eqb c "("%char then parens_from (S depth) s'
      else if Ascii.eqb c ")"%char then
        match depth with
        | O => false
        | S d => parens_from d s'
        end
      else parens_from depth s'
  end.

Definition balanced (s : string) : bool := parens_from 0 s.

End Chars.

(** ** The fragment of Python's [re] used by the rules *)

Module Re.
Import Chars.

(** [re.IGNORECASE], [re.MULTILINE], [re.DOTALL].  The source adds flags
    up; the flags it adds are distinct, so the sum is their union.
    [re.MULTILINE] only changes the anchors, which no pattern here uses. *)
Record flags := Flags { ignorecase : bool; multiline : bool; dotall : bool }.

Definition NOFLAG : flags := Flags false false false.
Definition IGNORECASE : flags := Flags true false false.
Definition MULTILINE : flags := Flags false true false.
Definition DOTALL : flags := Flags false false true.

Definition flag_add (a b : flags) : flags :=
  Flags (ignorecase a || ignorecase b) (multiline a || multiline b)
        (dotall a || dotall b).

Infix "+f" := flag_add (at level 50, left associativity).

(** Members of a bracketed set. *)
Inductive citem :=
| CLit (c : ascii)
| CRange (lo hi : ascii)
| CSpace
| CWord
| CDigit.

(** One-character matchers. *)
Inductive atom :=
| ALit (c : ascii)
| ADot
| ASet (negate : bool) (items : list citem).

(** Patterns.  Repetition is only needed on one-character operands; groups
    are numbered by their opening parenthesis, as in Python. *)
Inductive regex :=
| REmpty
| RAtom (a : atom)
| RStar (a : atom)
| RPlus (a : atom)
| ROpt (r : regex)
| RCat (r1 r2 : regex)
| RAlt (r1 r2 : regex)
| RGroup (i : nat) (r : regex).

Definition lit_ok (ic : bool) (l c : ascii) : bool :=
  if ic then Ascii.eqb (to_lower c) (to_lower l) else Ascii.eqb c l.

Definition range_ok (ic : bool) (lo hi c : ascii) : bool :=
  if ic then between (code lo) (code hi) (to_lower c)
             || between (code lo) (code hi) (to_upper c)
  else between (code lo) (code hi) c.

Definition citem_ok (ic : bool) (it : citem) (c : ascii) : bool :=
  match it with
  | CLit l => lit_ok ic l c
  | CRange lo hi => range_ok ic lo hi c
  | CSpace => is_space c
  | CWord => is_word c
  | CDigit => is_digit c
  end.

Definition atom_ok (fl : flags) (a : atom) (c : ascii) : bool :=
  match a with
  | ALit l => lit_ok (ignorecase fl) l c
  | ADot => dotall fl || negb (is_newline c)
  | ASet neg items =>
      xorb neg (existsb (fun it => citem_ok (ignorecase fl) it c) items)
  end.

(** Group marks: group number to (start, end) offsets from the match start. *)
Definition marks := list (nat * (nat * nat)).

Fixpoint mark_of (i : nat) (g : marks) : option (nat * nat) :=
  match g with
  | [] => None
  | (j, span) :: g' => if i =? j then Some span else mark_of i g'
  end.

Definition cont := string -> nat -> marks -> option (nat * marks).

(** Greedy repetition of a one-character test: take as many characters as
    possible, then give them back one by one until the rest matches. *)
Fixpoint greedy {A : Type} (ok : ascii -> bool) (s : string) (n : nat)
         (k : string -> nat -> option A) : option A :=
  match s with
  | String c s' =>
      if ok c then
        match greedy ok s' (S n) k with
        | Some x => Some x
        | None => k s n
        end
      else k s n
  | EmptyString => k s n
  end.

(** The backtracking matcher, in continuation-passing style: [k] is the rest
    of the pattern; [n] counts the characters consumed since the match
    start. *)
Fixpoint rmatch (fl : flags) (r : regex) (s : string) (n : nat) (g : marks)
         (k : cont) : option (nat * marks) :=
  match r with
  | REmpty => k s n g
  | RAtom a =>
      match s with
      | String c s' => if atom_ok fl a c then k s' (S n) g else None
      | EmptyString => None
      end
  | RStar a => greedy (atom_ok fl a) s n (fun s' n' => k s' n' g)
  | RPlus a =>
      match s with
      | String c s' =>
          if atom_ok fl a c
          then greedy (atom_ok fl a) s' (S n) (fun s'' n' => k s'' n' g)
          else None
      | EmptyString => None
      end
  | ROpt r1 =>
      match rmatch fl r1 s n g k with
      | Some x => Some x
      | None => k s n g
      end
  | RCat r1 r2 => rmatch fl r1 s n g (fun s' n' g' => rmatch fl r2 s' n' g' k)
  | RAlt r1 r2 =>
      match rmatch fl r1 s n g k with
      | Some x => Some x
      | None => rmatch fl r2 s n g k
      end
  | RGroup i r1 =>
      rmatch fl r1 s n g (fun s' n' g' => k s' n' ((i, (n, n')) :: g'))
  end.

(** A match attempt at the head of [s].  With [must_advance] an empty match
    is refused (the position just after an empty match). *)
Definition match_here (fl : flags) (r : regex) (s : string)
           (must_advance : bool) : option (nat * marks) :=
  rmatch fl r s 0 []
         (fun _ n g => if must_advance && (n =? 0) then None else Some (n, g)).

(** Replacement templates: literal characters and group references. *)
Inductive titem :=
| TLit (c : ascii)
| TRef (i : nat).

Definition template := list titem.

Fixpoint expand (t : template) (s : string) (g : marks) : string :=
  match t with
  | [] => ""
  | TLit c :: t' => String c (expand t' s g)
  | TRef i :: t' =>
      match mark_of i g with
      | Some (a, b) => substring a (b - a) s ++ expand t' s g
      | None => expand t' s g
      end
  end.

(** The scan of [re.sub]: leftmost matches, not overlapping.  [skip] counts
    the characters of the current match still to be passed over.  An empty
    match is replaced too, also right after a match (Python 3.7 and later);
    the search then resumes at the same position for a non-empty match. *)
Fixpoint sub_scan (fl : flags) (r : regex) (t : template) (s : string)
         (skip : nat) : string :=
  match s with
  | EmptyString =>
      match skip with
      | O => match match_here fl r s false with
             | Some (_, g) => expand t s g
             | None => ""
             end
      | S _ => ""
      end
  | String c s' =>
      match skip with
      | S m => sub_scan fl r t s' m
      | O =>
          match match_here fl r s false with
          | Some (S m, g) => expand t s g ++ sub_scan fl r t s' m
          | Some (O, g) =>
              expand t s g ++
              match match_here fl r s true with
              | Some (S m, g2) => expand t s g2 ++ sub_scan fl r t s' m
              | _ => String c (sub_scan fl r t s' 0)
              end
          | None => String c (sub_scan fl r t s' 0)
          end
      end
  end.

(** *** Compiling patterns

    [re_compile] reads the pattern syntax the rules use: literals, [.],
    the escapes [\s \w \d \n \t \r] and escaped punctuation, bracketed sets
    with ranges and negation, groups, [|], and the greedy [* + ?].  Anything
    else (anchors, counted or lazy repetition, repetition of a group,
    look-around, back-references) is refused with [None]. *)

Definition chr_is (c : ascii) (lit : string) : bool :=
  match lit with
  | String l EmptyString => Ascii.eqb c l
  | _ => false
  end.

Definition is_quant (c : ascii) : bool :=
  chr_is c "*" || chr_is c "+" || chr_is c "?" || chr_is c "{".

Definition escape_char (c : ascii) : option ascii :=
  if chr_is c "n" then Some newline
  else if chr_is c "t" then Some (ascii_of_nat 9)
  else if chr_is c "r" then Some carriage_return
  else if is_alnum c then None
  else Some c.

Definition escape_citem (c : ascii) : option citem :=
  if chr_is c "s" then Some CSpace
  else if chr_is c "w" then Some CWord
  else if chr_is c "d" then Some CDigit
  else option_map CLit (escape_char c).

Definition escape_atom (c : ascii) : option atom :=
  if chr_is c "s" then Some (ASet false [CSpace])
  else if chr_is c "w" then Some (ASet false [CWord])
  else if chr_is c "d" then Some (ASet false [CDigit])
  else option_map ALit (escape_char c).

(** The members of a set, up to the closing bracket. *)
Fixpoint parse_items (fuel : nat) (s : string) : option (list citem * string) :=
  match fuel with
  | O => None
  | S f =>
      match s with
      | EmptyString => None
      | String c s1 =>
          if chr_is c "]" then Some ([], s1)
          else
            let more (it : list citem) (rest : string) :=
              match parse_items f rest with
              | Some (its, out) => Some ((it ++ its)%list, out)
              | None => None
              end in
            if chr_is c "\" then
              match s1 with
              | String e s2 =>
                  match escape_citem e with
                  | Some it => more [it] s2
                  | None => None
                  end
              | EmptyString => None
              end
            else
              match s1 with
              | String d (String hi s3) =>
                  if chr_is d "-" then
                    if chr_is hi "]" then more [CLit c; CLit d] (String hi s3)
                    else if chr_is hi "\" then None
                    else more [CRange c hi] s3
                  else more [CLit c] s1
              | _ => more [CLit c] s1
              end
      end
  end.

Definition parse_set (s : string) : option (atom * string) :=
  let body (neg : bool) (rest : string) :=
    match rest with
    | String c _ =>
        if chr_is c "]" then None
        else match parse_items (S (String.length rest)) rest with
             | Some (its, out) => Some (ASet neg its, out)
             | None => None
             end
    | EmptyString => None
    end in
  match s with
  | String c s1 => if chr_is c "^" then body true s1 else body false s
  | EmptyString => None
  end.

(** A one-character operand starting with [c]. *)
Definition parse_atom (c : ascii) (s : string) : option (atom * string) :=
  if chr_is c "[" then parse_set s
  else if chr_is c "." then Some (ADot, s)
  else if chr_is c "\" then
    match s with
    | String e s1 => option_map (fun a => (a, s1)) (escape_atom e)
    | EmptyString => None
    end
  else if is_quant c || chr_is c "^" || chr_is c "$" then None
  else Some (ALit c, s).

Definition no_second_quant (r : regex) (s : string) : option (regex * string) :=
  match s with
  | String q _ => if is_quant q then None else Some (r, s)
  | EmptyString => Some (r, s)
  end.

Definition quantify_atom (a : atom) (s : string) : option (regex * string) :=
  match s with
  | String q s1 =>
      if chr_is q "*" then no_second_quant (RStar a) s1
      else if chr_is q "+" then no_second_quant (RPlus a) s1
      else if chr_is q "?" then no_second_quant (ROpt (RAtom a)) s1
      else if chr_is q "{" then None
      else Some (RAtom a, s)
  | EmptyString => Some (RAtom a, s)
  end.

Definition quantify_group (r : regex) (s : string) : option (regex * string) :=
  match s with
  | String q s1 =>
      if chr_is q "?" then no_second_quant (ROpt r) s1
      else if is_quant q then None
      else Some (r, s)
  | EmptyString => Some (r, s)
  end.

(** Alternatives and sequences; [gc] is the number of groups opened so far. *)
Fixpoint parse_alt (fuel : nat) (s : string) (gc : nat)
  : option (regex * string * nat) :=
  match fuel with
  | O => None
  | S f =>
      match parse_cat f s gc with
      | Some (r1, String c s1, gc1) =>
          if chr_is c "|" then
            match parse_alt f s1 gc1 with
            | Some (r2, s2, gc2) => Some (RAlt r1 r2, s2, gc2)
            | None => None
            end
          else Some (r1, String c s1, gc1)
      | other => other
      end
  end
with parse_cat (fuel : nat) (s : string) (gc : nat)
  : option (regex * string * nat) :=
  match fuel with
  | O => None
  | S f =>
      match s with
      | EmptyString => Some (REmpty, s, gc)
      | String c s1 =>
          if chr_is c "|" || chr_is c ")" then Some (REmpty, s, gc)
          else
            let piece :=
              if chr_is c "(" then
                match s1 with
                | String q _ =>
                    if chr_is q "?" then None
                    else
                      match parse_alt f s1 (S gc) with
                      | Some (r, String d s2, gc2) =>
                          if chr_is d ")" then
                            match quantify_group (RGroup (S gc) r) s2 with
                            | Some (p, s3) => Some (p, s3, gc2)
                            | None => None
                            end
                          else None
                      | _ => None
                      end
                | EmptyString => None
                end
              else
                match parse_atom c s1 with
                | Some (a, s2) =>
                    match quantify_atom a s2 with
                    | Some (p, s3) => Some (p, s3, gc)
                    | None => None
                    end
                | None => None
                end in
            match piece with
            | Some (p, s3, gc3) =>
                match parse_cat f s3 gc3 with
                | Some (r, s4, gc4) => Some (RCat p r, s4, gc4)
                | None => None
                end
            | None => None
            end
      end
  end.

(** [re.compile]: the pattern and its number of groups. *)
Definition re_compile (p : string) : option (regex * nat) :=
  match parse_alt (3 * String.length p + 3) p 0 with
  | Some (r, EmptyString, gc) => Some (r, gc)
  | _ => None
  end.

(** The replacement template: [\1] .. [\9] refer to groups of the pattern;
    a reference to a group the pattern lacks is an error, and so is any
    other use of the backslash. *)
Fixpoint parse_template (s : string) (ngroups : nat) : option template :=
  match s with
  | EmptyString => Some []
  | String c s1 =>
      if chr_is c "\" then
        match s1 with
        | String d s2 =>
            let i := code d - 48 in
            let next_digit :=
              match s2 with
              | String e _ => is_digit e
              | EmptyString => false
              end in
            if is_digit d && (1 <=? i) && (i <=? ngroups) && negb next_digit
            then option_map (cons (TRef i)) (parse_template s2 ngroups)
            else None
        | EmptyString => None
        end
      else option_map (cons (TLit c)) (parse_template s1 ngroups)
  end.

(** [re.sub(pattern, repl, string, flags=flags)]. *)
Definition re_sub (pattern repl : string) (s : string) (fl : flags)
  : result string :=
  match re_compile pattern with
  | Some (r, ng) =>
      match parse_template repl ng with
      | Some t => Ok (sub_scan fl r t s 0)
      | None => Raise ("re.error: bad replacement " ++ repl)
      end
  | None => Raise ("re.error: bad pattern " ++ pattern)
  end.

(** *** Searching *)

(** [s] starts with the word [w], letter case ignored under [ic]. *)
Fixpoint starts_with (ic : bool) (w s : string) : bool :=
  match w with
  | EmptyString => true
  | String l w' =>
      match s with
      | String c s' => lit_ok ic l c && starts_with ic w' s'
      | EmptyString => false
      end
  end.

(** Offset of the first occurrence of the word [w] in [s]. *)
Fixpoint index_of (ic : bool) (w s : string) : option nat :=
  if starts_with ic w s then Some 0
  else
    match s with
    | EmptyString => None
    | String _ s' => option_map S (index_of ic w s')
    end.

Definition occurs (ic : bool) (w s : string) : bool :=
  match index_of ic w s with
  | Some _ => true
  | None => false
  end.

(** The pattern that matches the word [w] and then [r]. *)
Fixpoint lits (w : string) (r : regex) : regex :=
  match w with
  | EmptyString => r
  | String c w' => RCat (RAtom (ALit c)) (lits w' r)
  end.

(** Whether the pattern matches somewhere in [s] (the scan of [re.search]). *)
Fixpoint search_scan (fl : flags) (r : regex) (s : string) : bool :=
  match match_here fl r s false with
  | Some _ => true
  | None =>
      match s with
      | EmptyString => false
      | String _ s' => search_scan fl r s'
      end
  end.

(** [re.search(pattern, string, flags) is not None] *)
Definition re_search (pattern : string) (s : string) (fl : flags)
  : result bool :=
  match re_compile pattern with
  | Some (r, _) => Ok (search_scan fl r s)
  | None => Raise ("re.error: bad pattern " ++ pattern)
  end.

(** Every one-character operand of the pattern passes [q]. *)
Fixpoint atoms_ok (q : atom -> bool) (r : regex) : bool :=
  match r with
  | REmpty => true
  | RAtom a | RStar a | RPlus a => q a
  | ROpt r1 | RGroup _ r1 => atoms_ok q r1
  | RCat r1 r2 | RAlt r1 r2 => atoms_ok q r1 && atoms_ok q r2
  end.

(** No operand of the pattern accepts a line break, so no match spans one. *)
Definition single_line (fl : flags) (r : regex) : bool :=
  atoms_ok (fun a => negb (atom_ok fl a newline)) r.

(** Every match of the pattern takes a character through an operand that
    passes [q]. *)
Fixpoint must_take (q : atom -> bool) (r : regex) : bool :=
  match r with
  | REmpty => false
  | RAtom a | RPlus a => q a
  | RStar _ | ROpt _ => false
  | RCat r1 r2 => must_take q r1 || must_take q r2
  | RAlt r1 r2 => must_take q r1 && must_take q r2
  | RGroup _ r1 => must_take q r1
  end.

(** The code points [str.isspace] accepts below 256. *)
Definition space_codes : list nat :=
  [9; 10; 11; 12; 13; 28; 29; 30; 31; 32; 133; 160].

(** The operand accepts no whitespace character. *)
Definition rejects_space (fl : flags) (a : atom) : bool :=
  forallb (fun n => negb (atom_ok fl a (ascii_of_nat n))) space_codes.

(** The replacement writes no line break of its own. *)
Definition template_single_line (t : template) : bool :=
  forallb (fun it => match it with
                     | TLit c => negb (is_newline c)
                     | TRef _ => true
                     end) t.

(** The two texts differ at most in the case of their letters. *)
Fixpoint same_letters (s t : string) : bool :=
  match s, t with
  | EmptyString, EmptyString => true
  | String c s', String d t' =>
      Ascii.eqb (to_lower c) (to_lower d) && same_letters s' t'
  | _, _ => false
  end.

End Re.

(** ** The rewriter: [parser/snowflake_parser.py] *)

Module Rewriter.
Import Chars Re.

(** One [re.sub] call of a rule: pattern, replacement, flags. *)
Definition step : Type := string * string * flags.

(** [sql = re.sub(pattern, replace, sql, flags=...)], one call after the
    other; the first call that raises ends the rule. *)
Fixpoint subs (steps : list step) (sql : string) : result string :=
  match steps with
  | [] => Ok sql
  | (pattern, replace, fl) :: rest =>
      sql <- re_sub pattern replace sql fl ;;
      subs rest sql
  end.

(** Remove encodings from DDL statements *)
Definition encoding_steps : list step :=
  [ ("[\s]encode .*,", ",", IGNORECASE);
    ("[\s]encode .*", "", IGNORECASE);
    ("[\s]timestamp without time zone", " timestamp_ntz(9)", IGNORECASE) ].

Definition parse_encoding (sql : string) : result string :=
  subs encoding_steps sql.

(** Remove diststyle and sortkeys from DDL statements *)
Definition dist_sort_steps : list step :=
  [ ("[\s]diststyle (all|even|auto|key)", "", IGNORECASE);
    ("distkey.*\)", "", IGNORECASE +f MULTILINE +f DOTALL);
    ("[\s]diststyle.*\)", "", IGNORECASE);
    ("((compound|interleaved) )?sortkey\s*\([^\(]*\)", "",
     IGNORECASE +f MULTILINE +f DOTALL);
    (* sometimes distkey is defined in column attributes *)
    ("distkey", "", IGNORECASE +f MULTILINE +f DOTALL) ].

Definition parse_dist_sort (sql : string) : result string :=
  subs dist_sort_steps sql.

(** Convert bool to boolean *)
Definition bool_steps : list step :=
  [ (" bool[\s]*([,\n])", " boolean\1", IGNORECASE);
    ("::[\s]*bool ", ":: boolean ", IGNORECASE) ].

Definition parse_bool (sql : string) : result string :=
  subs bool_steps sql.

(** Convert int to snowflake data type *)
Definition int_patterns : list string :=
  [" integer"; " int2"; " int4"; " int8"; " bigint"; " smallint"].

Definition int_steps : list step :=
  map (fun pattern => (pattern, " int", IGNORECASE)) int_patterns.

Definition parse_int (sql : string) : result string :=
  subs int_steps sql.

Definition varchar_steps : list step :=
  [ (" varchar\([0-9]+\)", " VARCHAR", IGNORECASE) ].

Definition parse_varchar (sql : string) : result string :=
  subs varchar_steps sql.

(** [str.rstrip]: drop the longest suffix of characters passing [strip]. *)
Fixpoint rstrip (strip : ascii -> bool) (s : string) : string :=
  match s with
  | EmptyString => EmptyString
  | String c s' =>
      match rstrip strip s' with
      | EmptyString => if strip c then EmptyString else String c EmptyString
      | t => String c t
      end
  end.

Definition is_line_end (c : ascii) : bool :=
  Ascii.eqb c newline || Ascii.eqb c carriage_return.

(** Remove trailing whitespace, newline, line terminators:
    [sql.rstrip("\n\r").rstrip()] *)
Definition parse_trailing_whitespace (sql : string) : result string :=
  Ok (rstrip is_space (rstrip is_line_end sql)).

(** Convert set search_path *)
Definition search_path_steps : list step :=
  [ ("set search_path to ", "use schema ", IGNORECASE) ].

Definition parse_search_path (sql : string) : result string :=
  subs search_path_steps sql.

(** Remove all analyze statements *)
Definition analyze_steps : list step :=
  [ ("analyze [\.\w\s]*;", "", IGNORECASE) ].

Definition parse_analyze (sql : string) : result string :=
  subs analyze_steps sql.

Definition wlm_query_slot_count_steps : list step :=
  [ ("set wlm_query_slot_count to [\d]+;", "", IGNORECASE) ].

Definition parse_wlm_query_slot_count (sql : string) : result string :=
  subs wlm_query_slot_count_steps sql.

(** Convert create table as statements *)
Definition ctas_steps : list step :=
  [ ("create table (.*) \([\s]*like[\s]*(.*)[\s]*\)", "create table \1 like \2",
     IGNORECASE +f MULTILINE) ].

Definition parse_ctas (sql : string) : result string :=
  subs ctas_steps sql.

(** Convert alter table rename to statements *)
Definition atrt_steps : list step :=
  [ ("alter table (\w+)\.(\w+) rename to (\w+)",
     "alter table \1.\2 rename to \1.\3", IGNORECASE +f MULTILINE) ].

Definition parse_atrt (sql : string) : result string :=
  subs atrt_steps sql.

(** Convert utc time zone *)
Definition convert_timezone_utc_steps : list step :=
  [ ("convert_timezone\('utc'", "convert_timezone('UTC'",
     IGNORECASE +f MULTILINE) ].

Definition parse_convert_timezone_utc (sql : string) : result string :=
  subs convert_timezone_utc_steps sql.

(** Convert pacific time zones *)
Definition convert_timezone_pacific_steps : list step :=
  [ ("convert_timezone\(('pst'|'pdt')", "convert_timezone('America/Los_Angeles'",
     IGNORECASE +f MULTILINE) ].

Definition parse_convert_timezone_pacific (sql : string) : result string :=
  subs convert_timezone_pacific_steps sql.

(** Convert date_trunc with weeks *)
Definition convert_date_trunc_weeks_steps : list step :=
  [ ("date_trunc\('weeks'", "date_trunc('week'", IGNORECASE +f MULTILINE) ].

Definition parse_convert_date_trunc_weeks (sql : string) : result string :=
  subs convert_date_trunc_weeks_steps sql.

(** Simple 1:1 swaps of method names. For example BOOL_OR() -> BOOLOR_AGG().
    The dict is walked in insertion order. *)
Definition swaps : list (string * string) :=
  [ ("BOOL_OR", "BOOLOR_AGG");
    ("BOOL_AND", "BOOLAND_AGG");
    (" ~ '", " regexp '");
    ("BTRIM", "TRIM");
    ("CHAR_LENGTH", "LEN");
    ("DATEPART", "DATE_PART");
    ("DATE_DIFF", "DATEDIFF");
    ("DATE_ADD\(", "DATEADD(");
    ("(DATEDIFF|DATE_DIFF)(\('weeks',)(.*)", "DATEDIFF('week', \3");
    ("FROM_UNIXTIME", "TO_TIMESTAMP");
    ("JSON_EXTRACT_PATH_TEXT\(([\w\.]*), '(\w*)', true\)", "\1:\2");
    ("IS FALSE", " = FALSE");
    ("IS TRUE", " = TRUE");
    ("NVL", "COALESCE");
    ("SYSDATE", "CURRENT_TIMESTAMP");
    ("CEILING\(", "CEIL(");
    ("ISNULL\(", "NVL(") ].

Definition swap_steps : list step :=
  map (fun '(orig, new) => (orig, new, IGNORECASE)) swaps.

Definition parse_swap_methods (sql : string) : result string :=
  subs swap_steps sql.

(** Convert tmp stuff *)
Definition tmp_steps : list step :=
  [ ("production\.user_sessions_view", "production.user_sessions", IGNORECASE);
    ("rating__bigint", "rating", IGNORECASE) ].

Definition parse_tmp (sql : string) : result string :=
  subs tmp_steps sql.

(** A registry entry: the function, its [__name__], and the patterns its
    [re.sub] calls search for (none for a rule that does not use [re]). *)
Record rule := Rule {
  name : string;
  run : string -> result string;
  patterns : list (string * flags)
}.

Definition step_pattern (st : step) : string * flags :=
  let '(pattern, _, fl) := st in (pattern, fl).

Definition regex_rule (nm : string) (steps : list step) : rule :=
  Rule nm (subs steps) (map step_pattern steps).

Definition parsers : list rule :=
  [ regex_rule "parse_encoding" encoding_steps;
    regex_rule "parse_dist_sort" dist_sort_steps;
    regex_rule "parse_bool" bool_steps;
    regex_rule "parse_int" int_steps;
    regex_rule "parse_varchar" varchar_steps;
    Rule "parse_trailing_whitespace" parse_trailing_whitespace [];
    regex_rule "parse_swap_methods" swap_steps;
    regex_rule "parse_search_path" search_path_steps;
    regex_rule "parse_analyze" analyze_steps;
    regex_rule "parse_ctas" ctas_steps;
    regex_rule "parse_atrt" atrt_steps;
    regex_rule "parse_tmp" tmp_steps;
    regex_rule "parse_wlm_query_slot_count" wlm_query_slot_count_steps;
    regex_rule "parse_convert_timezone_utc" convert_timezone_utc_steps;
    regex_rule "parse_convert_timezone_pacific" convert_timezone_pacific_steps;
    regex_rule "parse_convert_date_trunc_weeks" convert_date_trunc_weeks_steps ].

(** *** The driver *)

(** What the driver hands to [logger]. *)
Inductive log_record :=
| LogError (msg : string)
| LogException (e : exn)
| LogDebug (msg : string)
| LogInfo (msg : string).

(** [not sql] on a [str]. *)
Definition falsy (sql : string) : bool :=
  match sql with
  | EmptyString => true
  | String _ _ => false
  end.

(** How the [for] loop ends: by the [return] inside it, or by running out of
    parsers. *)
Inductive loop_end :=
| Returned (sql : string)
| Exhausted (sql : string).

Definition text_of (e : loop_end) : string :=
  match e with
  | Returned sql => sql
  | Exhausted sql => sql
  end.

(** [for parser in parsers: ...], with the records logged on the way. *)
Fixpoint for_parsers (ps : list rule) (sql : string)
  : loop_end * list log_record :=
  match ps with
  | [] => (Exhausted sql, [])
  | parser :: rest =>
      if falsy sql then (Returned sql, [])
      else
        match run parser sql with
        | Ok sql' =>
            let (e, log) := for_parsers rest sql' in
            (e, LogDebug ("Partial parsed sql: " ++ sql') :: log)
        | Raise exc =>
            let (e, log) := for_parsers rest sql in
            (e, LogError sql :: LogException exc
                  :: LogDebug ("Partial parsed sql: " ++ sql) :: log)
        end
  end.

(** The driver over a registry [ps]; [None] is Python's [None]. *)
Definition translate_with (ps : list rule) (sql : option string)
  : option string * list log_record :=
  match sql with
  | None => (None, [])
  | Some s =>
      if falsy s then (Some s, [])
      else
        match for_parsers ps s with
        | (Returned out, log) => (Some out, log)
        | (Exhausted out, log) =>
            (Some out, (log ++ [LogInfo ("Parsed snowflake sql: " ++ out)])%list)
        end
  end.

Definition parse_redshift_to_snowflake (sql : option string)
  : option string * list log_record :=
  translate_with parsers sql.

(** The text returned for a [str] argument. *)
Definition translated (sql : string) : option string :=
  fst (parse_redshift_to_snowflake (Some sql)).

(** No pattern of the rule matches anywhere in [sql]. *)
Definition quiet (p : rule) (sql : string) : bool :=
  forallb (fun '(pattern, fl) =>
             match re_search pattern sql fl with
             | Ok found => negb found
             | Raise _ => false
             end) (patterns p).

(** The pattern and the replacement of a step are accepted by [re]. *)
Definition step_compiles (st : step) : bool :=
  let '(pattern, replace, _) := st in
  match re_compile pattern with
  | Some (_, ng) =>
      match parse_template replace ng with
      | Some _ => true
      | None => false
      end
  | None => false
  end.

(** Every rule of [ps] returns [sql] as it is. *)
Definition unchanged_by (ps : list rule) (sql : string) : bool :=
  forallb (fun p => match run p sql with
                    | Ok out => String.eqb out sql
                    | Raise _ => false
                    end) ps.

(** A rule that always raises, standing for a broken regular expression. *)
Definition broken_rule : rule :=
  Rule "parse_broken" (fun _ => Raise "re.error: unbalanced parenthesis") [].

(** The text of one line break. *)
Definition nl : string := String newline "".

(** [alter table <schema>.<table> rename to <newname>] and its translation. *)
Definition rename_stmt (schema table newname : string) : string :=
  "alter table " ++ schema ++ "." ++ table ++ " rename to " ++ newname.

Definition renamed_stmt (schema table newname : string) : string :=
  "alter table " ++ schema ++ "." ++ table ++ " rename to "
                 ++ schema ++ "." ++ newname.

(** A record of the [except] branch. *)
Definition is_error_record (r : log_record) : bool :=
  match r with
  | LogError _ | LogException _ => true
  | LogDebug _ | LogInfo _ => false
  end.

(** The step compiles and every match of its pattern takes a character
    that is not whitespace. *)
Definition needs_text (st : step) : bool :=
  let '(pattern, replace, fl) := st in
  match re_compile pattern with
  | Some (r, ng) =>
      match parse_template replace ng with
      | Some _ => must_take (rejects_space fl) r
      | None => false
      end
  | None => false
  end.

(** The step compiles, no match of its pattern spans a line break and its
    replacement writes none. *)
Definition keeps_lines (st : step) : bool :=
  let '(pattern, replace, fl) := st in
  match re_compile pattern with
  | Some (r, ng) =>
      match parse_template replace ng with
      | Some t => single_line fl r && template_single_line t
      | None => false
      end
  | None => false
  end.

End Rewriter.

(** ** The compiled form of the patterns the proofs look into *)

Module Compiled.
Import Chars Re.

Definition word_set : atom := ASet false [CWord].
Definition digit_set : atom := ASet false [CDigit].

(** [(\w+)] as group [i] *)
Definition word_group (i : nat) : regex :=
  RGroup i (RCat (RPlus word_set) REmpty).

(** [distkey.*\)] *)
Definition distkey_span : regex :=
  lits "distkey" (RCat (RStar ADot) (RCat (RAtom (ALit ")")) REmpty)).

(** [alter table (\w+)\.(\w+) rename to (\w+)] *)
Definition atrt : regex :=
  lits "alter table "
       (RCat (word_group 1)
             (lits "."
                   (RCat (word_group 2)
                         (lits " rename to " (RCat (word_group 3) REmpty))))).

(** [set wlm_query_slot_count to [\d]+;] *)
Definition wlm_query_slot_count : regex :=
  lits "set wlm_query_slot_count to " (RCat (RPlus digit_set) (lits ";" REmpty)).

(** [set search_path to ] *)
Definition search_path : regex := lits "set search_path to " REmpty.

(** The literal characters of a replacement. *)
Fixpoint tlits (w : string) (t : template) : template :=
  match w with
  | EmptyString => t
  | String c w' => TLit c :: tlits w' t
  end.

(** [alter table \1.\2 rename to \1.\3] *)
Definition atrt_template : template :=
  tlits "alter table "
        (TRef 1 :: tlits "." (TRef 2 :: tlits " rename to "
                                    (TRef 1 :: tlits "." [TRef 3]))).

Definition dist_flags : flags := IGNORECASE +f MULTILINE +f DOTALL.
Definition atrt_flags : flags := IGNORECASE +f MULTILINE.

Definition space_set : atom := ASet false [CSpace].

(** [analyze [\.\w\s]*;] *)
Definition analyze_set : atom := ASet false [CLit "."; CWord; CSpace].

Definition analyze : regex :=
  lits "analyze " (RCat (RStar analyze_set) (lits ";" REmpty)).

(** What [[\.\w\s]] accepts. *)
Definition is_analyze_char (c : ascii) : bool :=
  Ascii.eqb c "." || is_word c || is_space c.

(** [ varchar\([0-9]+\)] *)
Definition size_set : atom := ASet false [CRange "0" "9"].

Definition varchar : regex :=
  lits " varchar(" (RCat (RPlus size_set) (lits ")" REmpty)).

(** [convert_timezone\(('pst'|'pdt')] *)
Definition convert_timezone_pacific : regex :=
  lits "convert_timezone("
       (RCat (RGroup 1 (RAlt (lits "'pst'" REmpty) (lits "'pdt'" REmpty)))
             REmpty).

(** [ bool[\s]*([,\n])] and its replacement [ boolean\1] *)
Definition bool_column : regex :=
  lits " bool"
       (RCat (RStar space_set)
             (RCat (RGroup 1 (RCat (RAtom (ASet false [CLit ","; CLit newline]))
                                   REmpty))
                   REmpty)).

Definition bool_column_template : template := tlits " boolean" [TRef 1].

(** [::[\s]*bool ] *)
Definition bool_cast : regex :=
  lits "::" (RCat (RStar space_set) (lits "bool " REmpty)).

(** [[\s]encode .*,], [[\s]encode .*] and
    [[\s]timestamp without time zone] *)
Definition encode_comma : regex :=
  RCat (RAtom space_set)
       (lits "encode " (RCat (RStar ADot) (lits "," REmpty))).

Definition encode_rest : regex :=
  RCat (RAtom space_set) (lits "encode " (RCat (RStar ADot) REmpty)).

Definition timestamp_ntz : regex :=
  RCat (RAtom space_set) (lits "timestamp without time zone" REmpty).

(** A character other than the line break: what [.] accepts without
    [re.DOTALL]. *)
Definition not_newline (c : ascii) : bool := negb (is_newline c).

(** [re.sub] of the literal word [w] by the literal text [r]. *)
Definition literal_scan (fl : flags) (w r : string) (s : string) : string :=
  sub_scan fl (lits w REmpty) (tlits r []) s 0.

(** The character [d] stands on the first line of [s]. *)
Fixpoint on_line (d : ascii) (s : string) : bool :=
  match s with
  | EmptyString => false
  | String c s' =>
      if is_newline c then false
      else if Ascii.eqb c d then true
      else on_line d s'
  end.

(** A character that is neither a line break nor [d]. *)
Definition lacks (d c : ascii) : bool :=
  negb (is_newline c) && negb (Ascii.eqb c d).

(** The text ends here, or goes on with a line break that is not followed
    by [encode ]. *)
Definition line_ends_here (s : string) : bool :=
  match s with
  | EmptyString => true
  | String c s' => is_newline c && negb (starts_with true "encode " s')
  end.

(** [[\s]diststyle (all|even|auto|key)] *)
Definition diststyles : list string := ["all"; "even"; "auto"; "key"].

Definition diststyle_word : regex :=
  RCat (RAtom space_set)
       (lits "diststyle "
             (RCat (RGroup 1 (RAlt (lits "all" REmpty)
                                   (RAlt (lits "even" REmpty)
                                         (RAlt (lits "auto" REmpty)
                                               (lits "key" REmpty)))))
                   REmpty)).

(** One of the four distribution styles, in any letter case. *)
Definition is_diststyle (kw : string) : bool :=
  existsb (same_letters kw) diststyles.

(** The pattern of [parse_ctas], with its two groups. *)
Definition ctas : regex :=
  lits "create table "
       (RCat (RGroup 1 (RCat (RStar ADot) REmpty))
             (lits " ("
                   (RCat (RStar space_set)
                         (lits "like"
                               (RCat (RStar space_set)
                                     (RCat (RGroup 2 (RCat (RStar ADot) REmpty))
                                           (RCat (RStar space_set)
                                                 (lits ")" REmpty)))))))).

Definition ctas_template : template :=
  tlits "create table " (TRef 1 :: tlits " like " [TRef 2]).

(** A character of a table name: no whitespace, no opening parenthesis. *)
Definition name_char (c : ascii) : bool :=
  negb (is_space c) && negb (Ascii.eqb c "(").

(** [s] without its leading whitespace. *)
Fixpoint lstrip (s : string) : string :=
  match s with
  | EmptyString => EmptyString
  | String c s' => if is_space c then lstrip s' else s
  end.

(** The line ends here, and what follows does not start, whitespace apart,
    with a closing parenthesis. *)
Definition statement_ends_here (s : string) : bool :=
  stops not_newline s && negb (starts_with false ")" (lstrip s)).

End Compiled.

(** ** Facts about texts *)

Module TextFacts.
Import Chars.

Lemma append_empty_r (s : string) : s ++ "" = s.
Proof. induction s as [|c s IH]; simpl; [|rewrite IH]; reflexivity. Qed.

Lemma append_assoc (a b c : string) : (a ++ b) ++ c = a ++ b ++ c.
Proof. induction a as [|x a IH]; simpl; [|rewrite IH]; reflexivity. Qed.

Lemma length_append (a b : string) :
  String.length (a ++ b) = String.length a + String.length b.
Proof. induction a as [|x a IH]; simpl; [|rewrite IH]; reflexivity. Qed.

Lemma take_append (a b : string) : take (String.length a) (a ++ b) = a.
Proof. induction a as [|x a IH]; simpl; [destruct b|rewrite IH]; reflexivity. Qed.

Lemma drop_append (a b : string) : drop (String.length a) (a ++ b) = b.
Proof. induction a as [|x a IH]; simpl; [destruct b|rewrite IH]; reflexivity. Qed.

Lemma substring_take (n : nat) (s : string) : substring 0 n s = take n s.
Proof.
  revert s; induction n as [|n IH]; intros [|c s]; simpl; try reflexivity.
  rewrite IH; reflexivity.
Qed.

Lemma substring_drop (a n : nat) (s : string) :
  substring a n s = take n (drop a s).
Proof.
  revert s; induction a as [|a IH]; intros s; simpl.
  - apply substring_take.
  - destruct s as [|c s]; [destruct n; reflexivity | apply IH].
Qed.

(** The slice that starts after [a] and is as long as [b]. *)
Lemma substring_middle (a b c : string) :
  substring (String.length a) (String.length b) (a ++ b ++ c) = b.
Proof. rewrite substring_drop, drop_append, take_append; reflexivity. Qed.

Lemma count_newlines_append (a b : string) :
  count_newlines (a ++ b) = count_newlines a + count_newlines b.
Proof. induction a as [|x a IH]; simpl; [|rewrite IH; lia]; reflexivity. Qed.

Lemma rindex_none_tail (c d : ascii) (s : string) :
  rindex c (String d s) = None -> rindex c s = None.
Proof. simpl. destruct (rindex c s); [discriminate | reflexivity]. Qed.

Lemma rindex_drop (c : ascii) :
  forall (n : nat) (s : string) (j : nat),
    rindex c s = Some j -> n <= j -> rindex c (drop n s) = Some (j - n).
Proof.
  induction n as [|n IH]; intros s j Hj Hle; simpl.
  - destruct s; rewrite Nat.sub_0_r; exact Hj.
  - destruct s as [|d s]; [discriminate|]. simpl in Hj.
    destruct (rindex c s) as [j0|] eqn:E.
    + injection Hj as <-. simpl. apply IH; [exact E | lia].
    + destruct (Ascii.eqb d c); [injection Hj as <-; lia | discriminate].
Qed.

Lemma rindex_drop_after (c : ascii) :
  forall (s : string) (j : nat),
    rindex c s = Some j -> rindex c (drop (S j) s) = None.
Proof.
  induction s as [|d s IH]; intros j Hj; [discriminate|]. simpl in Hj.
  destruct (rindex c s) as [j0|] eqn:E.
  - injection Hj as <-. change (rindex c (drop (S j0) s) = None).
    apply IH. reflexivity.
  - destruct (Ascii.eqb d c); [injection Hj as <-|discriminate].
    change (rindex c (drop 0 s) = None). destruct s; exact E.
Qed.

Lemma rindex_none_drop (c : ascii) :
  forall (n : nat) (s : string), rindex c s = None -> rindex c (drop n s) = None.
Proof.
  induction n as [|n IH]; intros s H; simpl; [destruct s; exact H|].
  destruct s as [|d s]; [exact H|]. apply IH. eapply rindex_none_tail; eassumption.
Qed.

End TextFacts.

(** ** Facts about the matcher and [re.sub] *)

Module ReFacts.
Import Chars Re TextFacts.

(** A literal word in front of a pattern is a prefix test. *)
Lemma rmatch_lits (fl : flags) (w : string) (r : regex) :
  forall (s : string) (n : nat) (g : marks) (k : cont),
    rmatch fl (lits w r) s n g k =
    if starts_with (ignorecase fl) w s
    then rmatch fl r (drop (String.length w) s) (n + String.length w) g k
    else None.
Proof.
  induction w as [|l w IH]; intros s n g k; simpl.
  - rewrite Nat.add_0_r. destruct s; reflexivity.
  - destruct s as [|c s]; [reflexivity|].
    destruct (lit_ok (ignorecase fl) l c); simpl; [|reflexivity].
    rewrite IH. replace (S n + String.length w) with (n + S (String.length w)) by lia.
    reflexivity.
Qed.

Lemma starts_with_append (ic : bool) (w a b : string) :
  starts_with ic w a = true -> starts_with ic w (a ++ b) = true.
Proof.
  revert a; induction w as [|l w IH]; intros a H; [reflexivity|].
  destruct a as [|c a]; [discriminate|]. simpl in *.
  apply andb_true_iff in H as [H1 H2]. rewrite H1, (IH _ H2). reflexivity.
Qed.

(** Step over a literal word of the pattern that the text starts with;
    [tail] is the text after the word. *)
Ltac past_literal tail :=
  rewrite rmatch_lits;
  change (starts_with _ _ _) with true; cbv iota;
  change (drop _ _) with tail.

(** Greedy repetition over a run [u] of passing characters that ends where
    the rest [v] stops: if the continuation succeeds after the whole run,
    that is the answer. *)
Lemma greedy_run {A : Type} (ok : ascii -> bool) (k : string -> nat -> option A) :
  forall (u v : string) (n : nat) (x : A),
    all_chars ok u = true -> stops ok v = true ->
    k v (n + String.length u) = Some x ->
    greedy ok (u ++ v) n k = Some x.
Proof.
  induction u as [|c u IH]; intros v n x Hu Hv Hk; simpl in *.
  - rewrite Nat.add_0_r in Hk. destruct v as [|d v]; simpl; [exact Hk|].
    simpl in Hv. apply negb_true_iff in Hv. rewrite Hv. exact Hk.
  - apply andb_true_iff in Hu as [Hc Hu]. rewrite Hc.
    rewrite (IH v (S n) x Hu Hv); [reflexivity|].
    replace (S n + String.length u) with (n + S (String.length u)) by lia.
    exact Hk.
Qed.

(** Greedy repetition of a test that passes everything, followed by one
    given character: the match ends at the last such character. *)
Lemma greedy_any_last (ok : ascii -> bool) (c : ascii)
      (k : string -> nat -> option (nat * marks)) :
  (forall d, ok d = true) ->
  (forall s n, k s n = match s with
                       | String d _ => if Ascii.eqb d c then Some (S n, []) else None
                       | EmptyString => None
                       end) ->
  forall (s : string) (n : nat),
    greedy ok s n k =
    match rindex c s with
    | Some j => Some (S (n + j), [])
    | None => None
    end.
Proof.
  intros Hok Hk. induction s as [|d s IH]; intros n; simpl.
  - apply Hk.
  - rewrite Hok, IH. destruct (rindex c s) as [j|].
    + f_equal. f_equal. lia.
    + rewrite Hk. destruct (Ascii.eqb d c); [rewrite Nat.add_0_r|]; reflexivity.
Qed.

Section Scan.
Variables (fl : flags) (r : regex) (t : template).

Lemma sub_scan_miss (c : ascii) (s : string) :
  match_here fl r (String c s) false = None ->
  sub_scan fl r t (String c s) 0 = String c (sub_scan fl r t s 0).
Proof. intros H. simpl. rewrite H. reflexivity. Qed.

Lemma sub_scan_hit (c : ascii) (s : string) (m : nat) (g : marks) :
  match_here fl r (String c s) false = Some (S m, g) ->
  sub_scan fl r t (String c s) 0 =
  expand t (String c s) g ++ sub_scan fl r t s m.
Proof. intros H. simpl. rewrite H. reflexivity. Qed.

(** Passing over the rest of a match. *)
Lemma sub_scan_skip (u v : string) :
  sub_scan fl r t (u ++ v) (String.length u) = sub_scan fl r t v 0.
Proof.
  induction u as [|c u IH]; simpl; [destruct v; reflexivity | exact IH].
Qed.

Lemma sub_scan_skip_drop :
  forall (m : nat) (s : string),
    m <= String.length s ->
    sub_scan fl r t s m = sub_scan fl r t (drop m s) 0.
Proof.
  induction m as [|m IH]; intros s Hm; simpl.
  - destruct s; reflexivity.
  - destruct s as [|c s]; simpl in *; [lia|]. apply IH. lia.
Qed.

(** Where the pattern matches nowhere, [re.sub] returns its argument. *)
Lemma sub_scan_quiet :
  forall s : string, search_scan fl r s = false -> sub_scan fl r t s 0 = s.
Proof.
  induction s as [|c s IH]; simpl; intros H.
  - destruct (match_here fl r "" false); [discriminate | reflexivity].
  - destruct (match_here fl r (String c s) false); [discriminate|].
    rewrite (IH H). reflexivity.
Qed.

End Scan.

(** Letter case does not matter for a character that is not a letter. *)
Lemma lit_ok_paren (ic : bool) (c : ascii) :
  lit_ok ic ")" c = Ascii.eqb c ")".
Proof.
  destruct ic; [|reflexivity].
  destruct c as [[] [] [] [] [] [] [] []]; reflexivity.
Qed.

Lemma rindex_lt (c : ascii) :
  forall (s : string) (j : nat), rindex c s = Some j -> j < String.length s.
Proof.
  induction s as [|d s IH]; intros j H; [discriminate|]. simpl in *.
  destruct (rindex c s) as [j0|].
  - injection H as <-. specialize (IH j0 eq_refl). lia.
  - destruct (Ascii.eqb d c); [injection H as <-; lia | discriminate].
Qed.

(** [re.sub] on a pattern that compiles, with a replacement that parses. *)
Lemma re_sub_compiled (pattern repl : string) (fl : flags) (r : regex)
      (ng : nat) (t : template) (s : string) :
  re_compile pattern = Some (r, ng) -> parse_template repl ng = Some t ->
  re_sub pattern repl s fl = Ok (sub_scan fl r t s 0).
Proof. intros Hc Ht. unfold re_sub. rewrite Hc, Ht. reflexivity. Qed.

(** *** What a match consumes *)

Lemma greedy_consumes {A : Type} (ok : ascii -> bool)
      (k : string -> nat -> option A) :
  forall (s : string) (n : nat) (x : A),
    greedy ok s n k = Some x ->
    exists u v, s = u ++ v /\ all_chars ok u = true
                /\ k v (n + String.length u) = Some x.
Proof.
  induction s as [|c s IH]; intros n x H; simpl in H.
  - exists "", "". rewrite Nat.add_0_r. auto.
  - destruct (ok c) eqn:Hc.
    + destruct (greedy ok s (S n) k) as [y|] eqn:Hg.
      * injection H as <-. destruct (IH _ _ Hg) as (u & v & -> & Hu & Hk).
        exists (String c u), v. simpl. rewrite Hc, Hu.
        replace (n + S (String.length u)) with (S n + String.length u) by lia.
        auto.
      * exists "", (String c s). rewrite Nat.add_0_r. auto.
    + exists "", (String c s). rewrite Nat.add_0_r. auto.
Qed.

Section Consumes.
Variables (fl : flags) (q : atom -> bool) (P : ascii -> bool).
Hypothesis q_sound : forall a c, q a = true -> atom_ok fl a c = true -> P c = true.

Lemma all_chars_weaken (a : atom) (u : string) :
  q a = true -> all_chars (atom_ok fl a) u = true -> all_chars P u = true.
Proof.
  intros Ha. induction u as [|c u IH]; simpl; [reflexivity|].
  intros H. apply andb_true_iff in H as [Hc Hu].
  rewrite (q_sound _ _ Ha Hc), (IH Hu). reflexivity.
Qed.

Lemma all_chars_append (u v : string) :
  all_chars P (u ++ v) = all_chars P u && all_chars P v.
Proof.
  induction u as [|c u IH]; simpl; [reflexivity|].
  rewrite IH, andb_assoc. reflexivity.
Qed.

(** A successful match has consumed a prefix of characters its operands
    accept, and handed the rest to its continuation. *)
Lemma rmatch_consumes (r : regex) :
  atoms_ok q r = true ->
  forall (s : string) (n : nat) (g : marks) (k : cont) (x : nat * marks),
    rmatch fl r s n g k = Some x ->
    exists u v g', s = u ++ v /\ all_chars P u = true
                   /\ k v (n + String.length u) g' = Some x.
Proof.
  induction r as [|a|a|a|r1 IH1|r1 IH1 r2 IH2|r1 IH1 r2 IH2|i r1 IH1];
    simpl; intros Hq s n g k x H.
  - exists "", s, g. rewrite Nat.add_0_r. auto.
  - destruct s as [|c s]; [discriminate|].
    destruct (atom_ok fl a c) eqn:Hc; [|discriminate].
    exists (String c ""), s, g. simpl. rewrite (q_sound _ _ Hq Hc).
    replace (n + 1) with (S n) by lia. auto.
  - destruct (greedy_consumes _ _ _ _ _ H) as (u & v & -> & Hu & Hk).
    exists u, v, g. rewrite (all_chars_weaken _ _ Hq Hu). auto.
  - destruct s as [|c s]; [discriminate|].
    destruct (atom_ok fl a c) eqn:Hc; [|discriminate].
    destruct (greedy_consumes _ _ _ _ _ H) as (u & v & -> & Hu & Hk).
    exists (String c u), v, g. simpl.
    rewrite (q_sound _ _ Hq Hc), (all_chars_weaken _ _ Hq Hu).
    replace (n + S (String.length u)) with (S n + String.length u) by lia.
    auto.
  - destruct (rmatch fl r1 s n g k) as [y|] eqn:H1.
    + injection H as <-. exact (IH1 Hq _ _ _ _ _ H1).
    + exists "", s, g. rewrite Nat.add_0_r. auto.
  - apply andb_true_iff in Hq as [Hq1 Hq2].
    destruct (IH1 Hq1 _ _ _ _ _ H) as (u1 & v1 & g1 & -> & Hu1 & Hk1).
    destruct (IH2 Hq2 _ _ _ _ _ Hk1) as (u2 & v2 & g2 & -> & Hu2 & Hk2).
    exists (u1 ++ u2), v2, g2. rewrite append_assoc, all_chars_append, Hu1, Hu2.
    rewrite length_append, Nat.add_assoc. auto.
  - apply andb_true_iff in Hq as [Hq1 Hq2].
    destruct (rmatch fl r1 s n g k) as [y|] eqn:H1.
    + injection H as <-. exact (IH1 Hq1 _ _ _ _ _ H1).
    + exact (IH2 Hq2 _ _ _ _ _ H).
  - destruct (IH1 Hq _ _ _ _ _ H) as (u & v & g' & -> & Hu & Hk).
    eauto 8.
Qed.

Lemma match_here_consumes (r : regex) (s : string) (adv : bool)
      (n : nat) (g : marks) :
  atoms_ok q r = true ->
  match_here fl r s adv = Some (n, g) ->
  exists u v, s = u ++ v /\ n = String.length u /\ all_chars P u = true.
Proof.
  intros Hq H. unfold match_here in H.
  destruct (rmatch_consumes r Hq _ _ _ _ _ H) as (u & v & g' & -> & Hu & Hk).
  exists u, v. destruct (adv && (0 + String.length u =? 0)); [discriminate|].
  injection Hk as <- _. auto.
Qed.

End Consumes.

(** A match of a single-line pattern contains no line break. *)
Lemma single_line_sound (fl : flags) (a : atom) (c : ascii) :
  negb (atom_ok fl a newline) = true -> atom_ok fl a c = true ->
  negb (is_newline c) = true.
Proof.
  intros Ha Hc. destruct (is_newline c) eqn:Hn; [|reflexivity].
  unfold is_newline, code in Hn. apply Nat.eqb_eq in Hn.
  assert (c = newline) as ->.
  { rewrite <- (ascii_nat_embedding c), Hn. reflexivity. }
  rewrite Hc in Ha. discriminate.
Qed.

Lemma no_newline_count (u : string) :
  all_chars (fun c => negb (is_newline c)) u = true -> count_newlines u = 0.
Proof.
  induction u as [|c u IH]; simpl; [reflexivity|].
  intros H. apply andb_true_iff in H as [Hc Hu].
  apply negb_true_iff in Hc. rewrite Hc, (IH Hu). reflexivity.
Qed.

(** Deleting the matches of a single-line pattern keeps every line break. *)
Lemma sub_scan_delete_keeps_lines (fl : flags) (r : regex) :
  single_line fl r = true ->
  forall (s : string) (skip : nat),
    skip <= String.length s ->
    count_newlines (sub_scan fl r [] s skip) = count_newlines (drop skip s).
Proof.
  intros Hr.
  assert (Hit : forall c s adv m g,
             match_here fl r (String c s) adv = Some (S m, g) ->
             m <= String.length s /\
             count_newlines (String c s) = count_newlines (drop m s)).
  { intros c s adv m g H.
    destruct (match_here_consumes fl _ _ (single_line_sound fl) r _ _ _ _ Hr H)
      as (u & v & Huv & Hn & Hu).
    destruct u as [|d u]; [discriminate|]. simpl in Huv, Hn.
    injection Huv as -> ->. injection Hn as ->.
    rewrite length_append, drop_append. split; [lia|].
    change (String d (u ++ v)) with (String d u ++ v).
    rewrite count_newlines_append, (no_newline_count _ Hu). reflexivity. }
  induction s as [|c s IH]; intros skip Hskip.
  - simpl in Hskip. replace skip with 0 by lia. simpl.
    destruct (match_here fl r "" false) as [[n g]|]; reflexivity.
  - destruct skip as [|m].
    + cbn [sub_scan drop].
      destruct (match_here fl r (String c s) false) as [[[|m] g]|] eqn:H1.
      * cbn [expand]. cbn [append].
        destruct (match_here fl r (String c s) true) as [[[|m] g2]|] eqn:H2.
        -- simpl. rewrite (IH 0) by lia. destruct s; reflexivity.
        -- destruct (Hit _ _ _ _ _ H2) as [Hm Hc]. cbn [expand append].
           rewrite IH by exact Hm. symmetry. exact Hc.
        -- simpl. rewrite (IH 0) by lia. destruct s; reflexivity.
      * destruct (Hit _ _ _ _ _ H1) as [Hm Hc]. cbn [expand append].
        rewrite IH by exact Hm. symmetry. exact Hc.
      * simpl. rewrite (IH 0) by lia. destruct s; reflexivity.
    + simpl in Hskip. cbn [sub_scan drop]. apply IH. lia.
Qed.

(** A match at the head of the text that covers exactly [u]. *)
Lemma sub_scan_hit_prefix (fl : flags) (r : regex) (t : template)
      (u v : string) (g : marks) :
  u <> "" ->
  match_here fl r (u ++ v) false = Some (String.length u, g) ->
  sub_scan fl r t (u ++ v) 0 = expand t (u ++ v) g ++ sub_scan fl r t v 0.
Proof.
  intros Hu H. destruct u as [|c u]; [congruence|].
  change (String c u ++ v) with (String c (u ++ v)) in *.
  rewrite (sub_scan_hit _ _ _ _ _ _ _ H), sub_scan_skip. reflexivity.
Qed.

(** *** Identifiers and the rename pattern *)

Section Words.
Import Compiled.
Variable fl : flags.

Lemma atom_ok_word (c : ascii) : atom_ok fl word_set c = is_word c.
Proof. simpl. apply orb_false_r. Qed.

Lemma atom_ok_digit (c : ascii) : atom_ok fl digit_set c = is_digit c.
Proof. simpl. apply orb_false_r. Qed.

Lemma all_chars_ext (p q : ascii -> bool) (u : string) :
  (forall c, p c = q c) -> all_chars p u = all_chars q u.
Proof.
  intros H. induction u as [|c u IH]; simpl; [|rewrite H, IH]; reflexivity.
Qed.

Lemma stops_ext (p q : ascii -> bool) (v : string) :
  (forall c, p c = q c) -> stops p v = stops q v.
Proof. intros H. destruct v; simpl; [|rewrite H]; reflexivity. Qed.

(** [a+] over a non-empty run [w] of characters [a] accepts, followed by a
    text [v] on which [a] stops. *)
Lemma rmatch_plus_run (a : atom) (w v : string) (n : nat) (g : marks)
      (k : cont) (x : nat * marks) :
  w <> "" -> all_chars (atom_ok fl a) w = true -> stops (atom_ok fl a) v = true ->
  k v (n + String.length w) g = Some x ->
  rmatch fl (RPlus a) (w ++ v) n g k = Some x.
Proof.
  intros Hne Hw Hv Hk. destruct w as [|c w]; [congruence|].
  simpl in Hw. apply andb_true_iff in Hw as [Hc Hw].
  cbn [rmatch append]. rewrite Hc.
  apply greedy_run; [exact Hw | exact Hv |].
  replace (S n + String.length w) with (n + String.length (String c w))
    by (simpl; lia).
  exact Hk.
Qed.

(** [(\w+)] in front of a pattern [q]: the group takes the whole identifier. *)
Lemma rmatch_word_group (i : nat) (q : regex) (w v : string) (n : nat)
      (g : marks) (k : cont) (x : nat * marks) :
  is_identifier w = true -> stops is_word v = true ->
  rmatch fl q v (n + String.length w) ((i, (n, n + String.length w)) :: g) k
  = Some x ->
  rmatch fl (RCat (word_group i) q) (w ++ v) n g k = Some x.
Proof.
  intros Hw Hv Hk.
  change (rmatch fl (RPlus word_set) (w ++ v) n g
                 (fun s' n' g' => rmatch fl q s' n' ((i, (n, n')) :: g') k)
          = Some x).
  apply rmatch_plus_run.
  - destruct w; [discriminate | congruence].
  - rewrite (all_chars_ext _ _ _ atom_ok_word).
    destruct w; [discriminate | exact Hw].
  - rewrite (stops_ext _ _ _ atom_ok_word). exact Hv.
  - exact Hk.
Qed.

End Words.

Lemma expand_tlits (w : string) (t : template) (s : string) (g : marks) :
  expand (Compiled.tlits w t) s g = w ++ expand t s g.
Proof. induction w as [|c w IH]; simpl; [|rewrite IH]; reflexivity. Qed.

(** The slice a group mark denotes, read off a decomposition of the text. *)
Lemma slice_at (s a b c : string) (n m : nat) :
  s = a ++ b ++ c -> n = String.length a -> m = n + String.length b ->
  substring n (m - n) s = b.
Proof.
  intros -> -> ->.
  replace (String.length a + String.length b - String.length a)
    with (String.length b) by lia.
  apply substring_middle.
Qed.

Section Rename.
Import Compiled Rewriter.

Lemma compile_atrt :
  re_compile "alter table (\w+)\.(\w+) rename to (\w+)" = Some (atrt, 3).
Proof. vm_compute. reflexivity. Qed.

Lemma template_atrt :
  parse_template "alter table \1.\2 rename to \1.\3" 3 = Some atrt_template.
Proof. vm_compute. reflexivity. Qed.

Variables schema table newname rest : string.
Hypothesis schema_ok : is_identifier schema = true.
Hypothesis table_ok : is_identifier table = true.
Hypothesis newname_ok : is_identifier newname = true.
Hypothesis rest_ok : stops is_word rest = true.

(** Read the slice of a group, the text being [a ++ b ++ c]. *)
Local Ltac slice a b c :=
  rewrite (slice_at (rename_stmt schema table newname ++ rest) a b c);
  [| unfold rename_stmt; rewrite !append_assoc; reflexivity
   | rewrite ?length_append; lia | lia].

Lemma atrt_here :
  exists g,
    match_here atrt_flags atrt (rename_stmt schema table newname ++ rest) false
    = Some (String.length (rename_stmt schema table newname), g)
    /\ expand atrt_template (rename_stmt schema table newname ++ rest) g
       = renamed_stmt schema table newname.
Proof.
  eexists. split.
  - unfold match_here, atrt, rename_stmt. rewrite !append_assoc.
    past_literal (schema ++ "." ++ table ++ " rename to " ++ newname ++ rest).
    apply rmatch_word_group; [exact schema_ok | reflexivity |].
    past_literal (table ++ " rename to " ++ newname ++ rest).
    apply rmatch_word_group; [exact table_ok | reflexivity |].
    past_literal (newname ++ rest).
    apply rmatch_word_group; [exact newname_ok | exact rest_ok |].
    cbn [rmatch andb].
    apply (f_equal Some). apply f_equal2; [|reflexivity].
    rewrite !length_append. lia.
  - unfold atrt_template, renamed_stmt.
    repeat (rewrite expand_tlits; cbn [expand mark_of Nat.eqb]).
    slice "alter table " schema
          ("." ++ table ++ " rename to " ++ newname ++ rest).
    slice ("alter table " ++ schema ++ ".") table
          (" rename to " ++ newname ++ rest).
    slice ("alter table " ++ schema ++ "." ++ table ++ " rename to ")
          newname rest.
    rewrite append_empty_r. reflexivity.
Qed.

(** [re.sub] with the rename pattern on a text that starts with a rename
    statement. *)
Lemma atrt_scan :
  sub_scan atrt_flags atrt atrt_template (rename_stmt schema table newname ++ rest) 0 =
  renamed_stmt schema table newname ++ sub_scan atrt_flags atrt atrt_template rest 0.
Proof.
  destruct atrt_here as (g & Hm & He).
  rewrite (sub_scan_hit_prefix _ _ _ _ _ g); [rewrite He; reflexivity | | exact Hm].
  unfold rename_stmt. discriminate.
Qed.

End Rename.

(** *** Literal patterns and the slot-count pattern *)

Section Literal.
Variables (fl : flags) (w : string) (t : template).

(** A pattern that is one literal word, on a text that starts with it. *)
Lemma lits_here (u v : string) :
  String.length u = String.length w ->
  starts_with (ignorecase fl) w u = true ->
  match_here fl (lits w REmpty) (u ++ v) false = Some (String.length u, []).
Proof.
  intros Hlen Hst. unfold match_here. rewrite rmatch_lits.
  rewrite (starts_with_append _ _ _ _ Hst), <- Hlen, drop_append.
  reflexivity.
Qed.

Lemma lits_scan (u v : string) :
  u <> "" -> String.length u = String.length w ->
  starts_with (ignorecase fl) w u = true ->
  sub_scan fl (lits w REmpty) t (u ++ v) 0 =
  expand t (u ++ v) [] ++ sub_scan fl (lits w REmpty) t v 0.
Proof.
  intros Hne Hlen Hst. apply sub_scan_hit_prefix; [exact Hne|].
  apply lits_here; assumption.
Qed.

End Literal.

Section SlotCount.
Import Compiled.

Lemma compile_wlm_query_slot_count :
  re_compile "set wlm_query_slot_count to [\d]+;" = Some (wlm_query_slot_count, 0).
Proof. vm_compute. reflexivity. Qed.

Lemma wlm_query_slot_count_single_line :
  single_line IGNORECASE wlm_query_slot_count = true.
Proof. vm_compute. reflexivity. Qed.

Lemma wlm_query_slot_count_here (count rest : string) :
  is_number count = true ->
  match_here IGNORECASE wlm_query_slot_count
             (("set wlm_query_slot_count to " ++ count ++ ";") ++ rest) false
  = Some (String.length ("set wlm_query_slot_count to " ++ count ++ ";"), []).
Proof.
  intros Hc. unfold match_here, wlm_query_slot_count. rewrite !append_assoc.
  past_literal (count ++ ";" ++ rest).
  match goal with
  | |- rmatch ?f (RCat (RPlus ?a) ?q) ?s ?n ?g ?k = _ =>
      change (rmatch f (RPlus a) s n g
                     (fun s' n' g' => rmatch f q s' n' g' k)
              = Some (String.length
                        ("set wlm_query_slot_count to " ++ count ++ ";"), []))
  end.
  apply rmatch_plus_run.
  - destruct count; [discriminate | congruence].
  - rewrite (all_chars_ext _ _ _ (atom_ok_digit IGNORECASE)).
    destruct count; [discriminate | exact Hc].
  - reflexivity.
  - past_literal rest. cbn [rmatch andb].
    apply (f_equal Some). apply f_equal2; [|reflexivity].
    rewrite !length_append. lia.
Qed.

Lemma wlm_query_slot_count_scan (count rest : string) :
  is_number count = true ->
  sub_scan IGNORECASE wlm_query_slot_count []
           (("set wlm_query_slot_count to " ++ count ++ ";") ++ rest) 0
  = sub_scan IGNORECASE wlm_query_slot_count [] rest 0.
Proof.
  intros Hc.
  rewrite (sub_scan_hit_prefix _ _ _ _ _ []);
    [reflexivity | discriminate | apply wlm_query_slot_count_here; exact Hc].
Qed.

Lemma compile_search_path :
  re_compile "set search_path to " = Some (search_path, 0).
Proof. vm_compute. reflexivity. Qed.

End SlotCount.

(** *** The pattern [distkey.*\)] with [re.DOTALL] *)

Section DistkeySpan.

Import Compiled.

Lemma compile_distkey_span : re_compile "distkey.*\)" = Some (distkey_span, 0).
Proof. vm_compute. reflexivity. Qed.

(** A match starts at a [distkey] and runs to the last [)] after it. *)
Lemma distkey_span_here (s : string) (adv : bool) :
  match_here dist_flags distkey_span s adv =
  if starts_with true "distkey" s then
    match rindex ")" (drop 7 s) with
    | Some j => Some (S (7 + j), [])
    | None => None
    end
  else None.
Proof.
  unfold match_here, distkey_span. rewrite rmatch_lits.
  change (ignorecase dist_flags) with true.
  destruct (starts_with true "distkey" s); [|reflexivity].
  change (String.length "distkey") with 7.
  cbn [rmatch].
  apply (greedy_any_last (atom_ok dist_flags ADot) ")").
  - intros d. reflexivity.
  - intros [|d u] n; [reflexivity|].
    change (atom_ok dist_flags (ALit ")") d) with (lit_ok true ")" d).
    rewrite lit_ok_paren. destruct (Ascii.eqb d ")"); [|reflexivity].
    rewrite andb_false_r. reflexivity.
Qed.

Lemma distkey_span_needs_paren :
  forall s : string, rindex ")" s = None -> search_scan dist_flags distkey_span s = false.
Proof.
  induction s as [|c s IH]; intros H; cbn [search_scan];
    rewrite distkey_span_here.
  - reflexivity.
  - rewrite (rindex_none_drop ")" 7 _ H).
    destruct (starts_with true "distkey" (String c s));
      apply IH; eapply rindex_none_tail; eassumption.
Qed.

(** The whole scan: everything from the first [distkey] through the last
    [)] of the text goes. *)
Lemma distkey_span_scan :
  forall (s : string) (i j : nat),
    index_of true "distkey" s = Some i -> rindex ")" s = Some j ->
    i + 7 <= j ->
    sub_scan dist_flags distkey_span [] s 0 = take i s ++ drop (S j) s.
Proof.
  induction s as [|c s IH]; intros i j Hi Hj Hle; [discriminate|].
  pose proof (rindex_lt _ _ _ Hj) as Hlt.
  unfold index_of in Hi; fold index_of in Hi.
  destruct (starts_with true "distkey" (String c s)) eqn:Hst.
  - injection Hi as <-.
    assert (Hm : match_here dist_flags distkey_span (String c s) false = Some (S j, [])).
    { rewrite distkey_span_here, Hst.
      rewrite (rindex_drop ")" 7 _ j Hj) by lia.
      do 2 f_equal. lia. }
    rewrite (sub_scan_hit _ _ _ _ _ _ _ Hm).
    simpl in Hlt.
    rewrite sub_scan_skip_drop by lia.
    rewrite sub_scan_quiet.
    + reflexivity.
    + apply distkey_span_needs_paren.
      apply (rindex_drop_after ")" (String c s) j Hj).
  - destruct (index_of true "distkey" s) as [i'|] eqn:Hi'; [|discriminate].
    injection Hi as <-.
    assert (Hm : match_here dist_flags distkey_span (String c s) false = None).
    { rewrite distkey_span_here, Hst. reflexivity. }
    rewrite (sub_scan_miss _ _ _ _ _ Hm).
    simpl in Hj. destruct (rindex ")" s) as [j0|] eqn:Hj0.
    + injection Hj as <-. rewrite (IH i' j0 eq_refl eq_refl) by lia.
      reflexivity.
    + destruct (Ascii.eqb c ")"); [injection Hj as <-; lia | discriminate].
Qed.

End DistkeySpan.

End ReFacts.

(** ** Facts about the driver *)

Module DriverFacts.
Import Chars Re Rewriter.

(** Running a registry split in two: the second half starts from the text the
    first half leaves, unless the first half returned early. *)
Lemma for_parsers_app (ps1 ps2 : list rule) :
  forall sql,
    for_parsers (ps1 ++ ps2)%list sql =
    match for_parsers ps1 sql with
    | (Returned out, log) => (Returned out, log)
    | (Exhausted t, log1) =>
        let (e, log2) := for_parsers ps2 t in (e, (log1 ++ log2)%list)
    end.
Proof.
  induction ps1 as [|p ps1 IH]; intros sql; simpl.
  - destruct (for_parsers ps2 sql); reflexivity.
  - destruct (falsy sql) eqn:Hf; [reflexivity|].
    destruct (run p sql) as [sql'|exc].
    + rewrite IH. destruct (for_parsers ps1 sql') as [[out|t] log1]; simpl.
      * reflexivity.
      * destruct (for_parsers ps2 t); reflexivity.
    + rewrite IH. destruct (for_parsers ps1 sql) as [[out|t] log1]; simpl.
      * reflexivity.
      * destruct (for_parsers ps2 t); reflexivity.
Qed.

(** The loop ends with an empty text only by [return]ing it ... *)
Lemma for_parsers_nonempty_start (ps : list rule) (sql t : string)
      (log : list log_record) :
  for_parsers ps sql = (Exhausted t, log) -> falsy t = false ->
  falsy sql = false.
Proof.
  destruct ps as [|p ps]; simpl.
  - intros H Ht. injection H as -> _. exact Ht.
  - destruct (falsy sql); [discriminate | reflexivity].
Qed.

(** ... and on an empty text it never calls a parser. *)
Lemma for_parsers_empty (ps : list rule) :
  for_parsers ps "" = (match ps with [] => Exhausted "" | _ => Returned "" end, []).
Proof. destruct ps; reflexivity. Qed.

(** The driver always hands back a text for a text. *)
Lemma translate_with_total (ps : list rule) (sql : string) :
  exists out, fst (translate_with ps (Some sql)) = Some out.
Proof.
  unfold translate_with. destruct (falsy sql).
  - eexists; reflexivity.
  - destruct (for_parsers ps sql) as [[out|out] log]; eexists; reflexivity.
Qed.

End DriverFacts.

(** ** Facts about the rules *)

Module RuleFacts.
Import Chars Re Rewriter TextFacts ReFacts.

(** [rstrip] leaves no character to strip at the end ... *)
Lemma rstrip_clean (p : ascii -> bool) :
  forall s : string, ends_in p (rstrip p s) = false.
Proof.
  induction s as [|c s IH]; simpl; [reflexivity|].
  destruct (rstrip p s) as [|d u] eqn:E.
  - destruct (p c) eqn:Hc; simpl; [reflexivity | exact Hc].
  - exact IH.
Qed.

(** ... and does nothing to a text that already ends clean. *)
Lemma rstrip_fixed (p : ascii -> bool) :
  forall s : string, ends_in p s = false -> rstrip p s = s.
Proof.
  induction s as [|c s IH]; simpl; [reflexivity|].
  destruct s as [|d u].
  - intros Hc. simpl. rewrite Hc. reflexivity.
  - intros H. rewrite (IH H). reflexivity.
Qed.

Lemma ends_in_weaken (p q : ascii -> bool) :
  (forall c, q c = true -> p c = true) ->
  forall s : string, ends_in p s = false -> ends_in q s = false.
Proof.
  intros Hpq. induction s as [|c s IH]; simpl; [reflexivity|].
  destruct s as [|d u]; [|exact IH].
  intros Hc. destruct (q c) eqn:Hq; [|reflexivity].
  rewrite (Hpq _ Hq) in Hc. discriminate.
Qed.

Lemma line_end_is_space (c : ascii) : is_line_end c = true -> is_space c = true.
Proof.
  unfold is_line_end. intros H. apply orb_true_iff in H as [H|H];
    apply Ascii.eqb_eq in H; subst c; reflexivity.
Qed.

(** Stripping twice is stripping once. *)
Lemma trailing_whitespace_twice (s : string) :
  rstrip is_space (rstrip is_line_end (rstrip is_space (rstrip is_line_end s)))
  = rstrip is_space (rstrip is_line_end s).
Proof.
  pose proof (rstrip_clean is_space (rstrip is_line_end s)) as H.
  rewrite (rstrip_fixed is_line_end) by
      (apply (ends_in_weaken is_space); [exact line_end_is_space | exact H]).
  apply rstrip_fixed. exact H.
Qed.

(** A chain of [re.sub] calls whose patterns match nowhere in [sql] returns
    [sql]; that the chain ran on some text shows that its patterns and
    replacements compile. *)
Lemma subs_quiet (steps : list step) :
  forall (before after sql : string),
    subs steps before = Ok after ->
    forallb (fun '(pattern, fl) =>
               match re_search pattern sql fl with
               | Ok found => negb found
               | Raise _ => false
               end) (map step_pattern steps) = true ->
    subs steps sql = Ok sql.
Proof.
  induction steps as [|[[pattern repl] fl] steps IH]; intros before after sql Hrun Hq.
  - reflexivity.
  - cbn [subs] in *. cbn [map forallb step_pattern] in Hq.
    apply andb_true_iff in Hq as [Hhere Hrest].
    unfold re_sub in *. unfold re_search in Hhere.
    destruct (re_compile pattern) as [[r ng]|]; [|discriminate].
    destruct (parse_template repl ng) as [t|]; [|discriminate].
    apply negb_true_iff in Hhere. rewrite (sub_scan_quiet _ _ _ _ Hhere).
    cbn [bind] in *. exact (IH _ _ _ Hrun Hrest).
Qed.

(** Rules that return the text as it is: the loop runs through them. *)
Lemma for_parsers_unchanged (ps : list rule) (sql : string) :
  falsy sql = false -> unchanged_by ps sql = true ->
  fst (for_parsers ps sql) = Exhausted sql.
Proof.
  intros Hf. induction ps as [|p ps IH]; simpl; [reflexivity|].
  intros H. apply andb_true_iff in H as [Hp Hps]. rewrite Hf.
  destruct (run p sql) as [out|exc]; [|discriminate].
  apply String.eqb_eq in Hp. subst out.
  specialize (IH Hps). destruct (for_parsers ps sql) as [e log]. exact IH.
Qed.

Lemma registry_shape (p : rule) :
  In p parsers ->
  p = Rule "parse_trailing_whitespace" parse_trailing_whitespace [] \/
  exists nm steps, p = regex_rule nm steps.
Proof.
  unfold parsers. cbn [In].
  intros H; repeat (destruct H as [<-|H]; [eauto|]); contradiction.
Qed.

(** One rule rewrites the text and all the others return what they get. *)
Lemma translate_through (ps1 : list rule) (p : rule) (ps2 : list rule)
      (sql out : string) :
  falsy sql = false -> falsy out = false ->
  unchanged_by ps1 sql = true -> run p sql = Ok out ->
  unchanged_by ps2 out = true ->
  fst (translate_with (ps1 ++ p :: ps2) (Some sql)) = Some out.
Proof.
  intros Hs Ho H1 Hp H2.
  pose proof (for_parsers_unchanged ps1 sql Hs H1) as R1.
  pose proof (for_parsers_unchanged ps2 out Ho H2) as R2.
  unfold translate_with. rewrite Hs, DriverFacts.for_parsers_app.
  destruct (for_parsers ps1 sql) as [e1 log1]. cbn [fst] in R1. subst e1.
  cbn [for_parsers]. rewrite Hs, Hp.
  destruct (for_parsers ps2 out) as [e2 log2]. cbn [fst] in R2. subst e2.
  reflexivity.
Qed.

(** [parse_atrt] on a text that starts with a rename statement. *)
Lemma parse_atrt_statement (schema table newname rest : string) :
  is_identifier schema = true -> is_identifier table = true ->
  is_identifier newname = true -> stops is_word rest = true ->
  parse_atrt (rename_stmt schema table newname ++ rest) =
  (out <- parse_atrt rest ;; Ok (renamed_stmt schema table newname ++ out)).
Proof.
  intros Hs Ht Hn Hr. unfold parse_atrt, atrt_steps. cbn [subs].
  rewrite !(re_sub_compiled _ _ _ _ _ _ _ compile_atrt template_atrt).
  cbn [bind]. change (IGNORECASE +f MULTILINE) with Compiled.atrt_flags.
  rewrite (atrt_scan schema table newname rest Hs Ht Hn Hr). reflexivity.
Qed.

Lemma parse_wlm_query_slot_count_scan (sql : string) :
  parse_wlm_query_slot_count sql =
  Ok (sub_scan IGNORECASE Compiled.wlm_query_slot_count [] sql 0).
Proof.
  unfold parse_wlm_query_slot_count, wlm_query_slot_count_steps. cbn [subs].
  rewrite (re_sub_compiled _ "" _ _ _ [] _ compile_wlm_query_slot_count eq_refl).
  reflexivity.
Qed.

Lemma parse_search_path_scan (sql : string) :
  parse_search_path sql =
  Ok (sub_scan IGNORECASE Compiled.search_path
               (Compiled.tlits "use schema " []) sql 0).
Proof.
  unfold parse_search_path, search_path_steps. cbn [subs].
  rewrite (re_sub_compiled _ "use schema " _ _ _
             (Compiled.tlits "use schema " []) _ compile_search_path eq_refl).
  reflexivity.
Qed.

(** A chain of [re.sub] calls whose patterns and replacements compile
    returns on every text. *)
Lemma subs_total (steps : list step) :
  forallb step_compiles steps = true ->
  forall sql : string, exists out, subs steps sql = Ok out.
Proof.
  induction steps as [|[[pattern repl] fl] steps IH]; intros Hc sql.
  - eexists; reflexivity.
  - cbn [forallb] in Hc. apply andb_true_iff in Hc as [H1 H2].
    cbn [subs]. unfold step_compiles in H1. unfold re_sub.
    destruct (re_compile pattern) as [[r ng]|]; [|discriminate].
    destruct (parse_template repl ng) as [t|]; [|discriminate].
    cbn [bind]. apply (IH H2).
Qed.

(** No rule of the registry raises on a text: every pattern and every
    replacement of the source compiles. *)
Lemma registry_never_raises (p : rule) (sql : string) :
  In p parsers -> exists out, run p sql = Ok out.
Proof.
  unfold parsers. cbn [In]. intros H.
  repeat (destruct H as [<-|H];
          [first [ apply subs_total; vm_compute; reflexivity
                 | eexists; reflexivity ]|]).
  contradiction.
Qed.

End RuleFacts.

(** ** Further facts about the driver and the rules *)

Module ExtraFacts.
Import Chars Re Rewriter TextFacts ReFacts DriverFacts RuleFacts.

(** *** The driver *)

(** When no rule raises, the loop logs no record of the [except] branch. *)
Lemma for_parsers_no_error (ps : list rule) :
  (forall p sql, In p ps -> exists out, run p sql = Ok out) ->
  forall sql, existsb is_error_record (snd (for_parsers ps sql)) = false.
Proof.
  induction ps as [|p ps IH]; intros Hok sql; simpl; [reflexivity|].
  destruct (falsy sql); [reflexivity|].
  destruct (Hok p sql (or_introl eq_refl)) as [out ->].
  specialize (IH (fun q t Hq => Hok q t (or_intror Hq)) out).
  destruct (for_parsers ps out) as [e log]. exact IH.
Qed.

Lemma existsb_last {A : Type} (f : A -> bool) (l : list A) (x : A) :
  existsb f (l ++ [x])%list = existsb f l || f x.
Proof. rewrite existsb_app. simpl. rewrite orb_false_r. reflexivity. Qed.

(** The driver over a registry in two parts, on the returned texts. *)
Lemma translate_with_app (ps1 ps2 : list rule) (sql : option string) :
  fst (translate_with (ps1 ++ ps2) sql)
  = fst (translate_with ps2 (fst (translate_with ps1 sql))).
Proof.
  destruct sql as [s|]; [|reflexivity].
  unfold translate_with at 1 3. destruct (falsy s) eqn:Hs.
  - cbn [fst]. unfold translate_with. rewrite Hs. reflexivity.
  - rewrite for_parsers_app.
    destruct (for_parsers ps1 s) as [[out|t] log1] eqn:H1; cbn [fst].
    + assert (out = "") as ->.
      { clear -H1. revert s log1 H1.
        induction ps1 as [|p ps1 IH]; intros s log1 H; simpl in H;
          [discriminate|].
        destruct (falsy s) eqn:Hf.
        - injection H as <- _. destruct s; [reflexivity | discriminate].
        - destruct (run p s) as [s'|exc];
            [destruct (for_parsers ps1 s') as [e l] eqn:E
            |destruct (for_parsers ps1 s) as [e l] eqn:E];
            injection H as -> _; eapply IH; exact E. }
      reflexivity.
    + unfold translate_with.
      destruct (falsy t) eqn:Ht.
      * destruct t; [|discriminate]. rewrite for_parsers_empty.
        destruct ps2; reflexivity.
      * destruct (for_parsers ps2 t) as [[out|out] log2]; reflexivity.
Qed.

(** *** Stripping *)

Lemma rstrip_all (p : ascii -> bool) :
  forall s : string, all_chars p s = true -> rstrip p s = "".
Proof.
  induction s as [|c s IH]; simpl; [reflexivity|].
  intros H. apply andb_true_iff in H as [Hc Hs]. rewrite (IH Hs), Hc.
  reflexivity.
Qed.

(** [rstrip] returns a prefix of its argument; what follows the prefix is
    made of stripped characters. *)
Lemma rstrip_split (p : ascii -> bool) :
  forall s : string,
  exists suffix, s = rstrip p s ++ suffix /\ all_chars p suffix = true.
Proof.
  induction s as [|c s IH]; simpl.
  - exists "". auto.
  - destruct IH as (suffix & Hs & Hall).
    destruct (rstrip p s) as [|d u] eqn:E; simpl in Hs.
    + subst suffix. destruct (p c) eqn:Hc.
      * exists (String c s). simpl. rewrite Hc, Hall. auto.
      * exists s. auto.
    + exists suffix. simpl. rewrite <- Hs. auto.
Qed.

(** Characters to strip at the end do not change what [rstrip] returns. *)
Lemma rstrip_append_stripped (p : ascii -> bool) (b : string) :
  all_chars p b = true ->
  forall a : string, rstrip p (a ++ b) = rstrip p a.
Proof.
  intros Hb. induction a as [|c a IH]; simpl.
  - apply rstrip_all. exact Hb.
  - rewrite IH. reflexivity.
Qed.

Lemma all_chars_line_end_space (s : string) :
  all_chars is_line_end s = true -> all_chars is_space s = true.
Proof.
  induction s as [|c s IH]; simpl; [reflexivity|].
  intros H. apply andb_true_iff in H as [Hc Hs].
  rewrite (line_end_is_space _ Hc), (IH Hs). reflexivity.
Qed.

(** The first strip of [parse_trailing_whitespace] is subsumed by the
    second. *)
Lemma trailing_whitespace_one_strip (s : string) :
  rstrip is_space (rstrip is_line_end s) = rstrip is_space s.
Proof.
  destruct (rstrip_split is_line_end s) as (suffix & Hs & Hall).
  rewrite Hs at 2.
  rewrite (rstrip_append_stripped is_space suffix
             (all_chars_line_end_space _ Hall)).
  reflexivity.
Qed.

(** *** Texts made of whitespace *)

Lemma is_space_code (c : ascii) :
  is_space c = true -> In (code c) space_codes.
Proof.
  destruct c as [[] [] [] [] [] [] [] []]; intros H;
    first [discriminate H | simpl; tauto].
Qed.

Lemma rejects_space_sound (fl : flags) (a : atom) (c : ascii) :
  rejects_space fl a = true -> is_space c = true -> atom_ok fl a c = false.
Proof.
  intros Ha Hc. unfold rejects_space in Ha.
  rewrite forallb_forall in Ha.
  specialize (Ha _ (is_space_code c Hc)).
  unfold code in Ha. rewrite ascii_nat_embedding in Ha.
  apply negb_true_iff in Ha. exact Ha.
Qed.

Lemma all_chars_suffix (p : ascii -> bool) (u v : string) :
  all_chars p (u ++ v) = true -> all_chars p v = true.
Proof.
  induction u as [|c u IH]; simpl; [auto|].
  intros H. apply andb_true_iff in H as [_ H]. exact (IH H).
Qed.

(** A pattern fails where its continuation fails on every suffix. *)
Lemma rmatch_cont_fails (fl : flags) (r : regex) (s : string) (n : nat)
      (g : marks) (k : cont) :
  (forall u v n' g', s = u ++ v -> k v n' g' = None) ->
  rmatch fl r s n g k = None.
Proof.
  intros Hk. destruct (rmatch fl r s n g k) as [x|] eqn:H; [|reflexivity].
  assert (Hq : atoms_ok (fun _ => true) r = true).
  { clear. induction r; simpl; auto; rewrite ?IHr1, ?IHr2; reflexivity. }
  destruct (rmatch_consumes fl (fun _ => true) (fun _ => true)
              (fun _ _ _ _ => eq_refl) r Hq _ _ _ _ _ H)
    as (u & v & g' & Huv & _ & Hx).
  rewrite (Hk u v _ g' Huv) in Hx. discriminate.
Qed.

(** A pattern that must take a character that is not whitespace matches
    nowhere in a text made of whitespace. *)
Lemma rmatch_needs_text (fl : flags) (r : regex) :
  must_take (rejects_space fl) r = true ->
  forall (s : string) (n : nat) (g : marks) (k : cont),
    all_chars is_space s = true -> rmatch fl r s n g k = None.
Proof.
  induction r as [|a|a|a|r1 IH1|r1 IH1 r2 IH2|r1 IH1 r2 IH2|i r1 IH1];
    simpl; intros Hm s n g k Hs; try discriminate.
  - destruct s as [|c s]; [reflexivity|]. simpl in Hs.
    apply andb_true_iff in Hs as [Hc _].
    rewrite (rejects_space_sound _ _ _ Hm Hc). reflexivity.
  - destruct s as [|c s]; [reflexivity|]. simpl in Hs.
    apply andb_true_iff in Hs as [Hc _].
    rewrite (rejects_space_sound _ _ _ Hm Hc). reflexivity.
  - apply orb_true_iff in Hm as [Hm|Hm].
    + apply IH1; assumption.
    + apply rmatch_cont_fails. intros u v n' g' ->.
      apply IH2; [exact Hm | eapply all_chars_suffix; exact Hs].
  - apply andb_true_iff in Hm as [Hm1 Hm2].
    rewrite (IH1 Hm1 _ _ _ _ Hs). apply IH2; assumption.
  - apply IH1; assumption.
Qed.

Lemma search_scan_needs_text (fl : flags) (r : regex) :
  must_take (rejects_space fl) r = true ->
  forall s : string, all_chars is_space s = true -> search_scan fl r s = false.
Proof.
  intros Hm. induction s as [|c s IH]; intros Hs; cbn [search_scan];
    unfold match_here; rewrite (rmatch_needs_text fl r Hm _ _ _ _ Hs).
  - reflexivity.
  - simpl in Hs. apply andb_true_iff in Hs as [_ Hs]. exact (IH Hs).
Qed.

Lemma subs_needs_text (steps : list step) (sql : string) :
  forallb needs_text steps = true -> all_chars is_space sql = true ->
  subs steps sql = Ok sql.
Proof.
  intros Hn Hs. induction steps as [|[[pattern repl] fl] steps IH];
    [reflexivity|].
  cbn [forallb] in Hn. apply andb_true_iff in Hn as [H1 H2].
  cbn [subs]. unfold needs_text in H1. unfold re_sub.
  destruct (re_compile pattern) as [[r ng]|]; [|discriminate].
  destruct (parse_template repl ng) as [t|]; [|discriminate].
  rewrite (sub_scan_quiet _ _ _ _ (search_scan_needs_text fl r H1 sql Hs)).
  cbn [bind]. exact (IH H2).
Qed.

(** *** Rules that find nothing *)

Lemma quiet_rule_unchanged (p : rule) (sql : string) :
  In p parsers -> ends_in_space sql = false -> quiet p sql = true ->
  run p sql = Ok sql.
Proof.
  intros Hin Hclean Hq.
  destruct (registry_never_raises p sql Hin) as [out Hout].
  destruct (registry_shape p Hin) as [->|(nm & steps & ->)].
  - cbn [run]. unfold parse_trailing_whitespace.
    rewrite trailing_whitespace_one_strip.
    rewrite (rstrip_fixed is_space sql Hclean). reflexivity.
  - cbn [run regex_rule] in *. exact (subs_quiet steps sql out sql Hout Hq).
Qed.

(** *** Group marks and line breaks *)

Section Marks.
Variables (fl : flags) (q : atom -> bool) (P : ascii -> bool).
Hypothesis q_sound : forall a c, q a = true -> atom_ok fl a c = true -> P c = true.

Lemma marks_grow (g : marks) (n m : nat) :
  n <= m ->
  Forall (fun mk : nat * (nat * nat) => snd (snd mk) <= n) g ->
  Forall (fun mk : nat * (nat * nat) => snd (snd mk) <= m) g.
Proof.
  intros Hnm H. eapply Forall_impl; [|exact H]. simpl. intros mk Hmk. lia.
Qed.

(** A successful match has consumed a prefix its operands accept, and no
    group mark ends after the characters consumed so far. *)
Lemma rmatch_consumes_marks (r : regex) :
  atoms_ok q r = true ->
  forall (s : string) (n : nat) (g : marks) (k : cont) (x : nat * marks),
    Forall (fun mk : nat * (nat * nat) => snd (snd mk) <= n) g ->
    rmatch fl r s n g k = Some x ->
    exists u v g', s = u ++ v /\ all_chars P u = true
                   /\ Forall (fun mk : nat * (nat * nat) =>
                                snd (snd mk) <= n + String.length u) g'
                   /\ k v (n + String.length u) g' = Some x.
Proof.
  induction r as [|a|a|a|r1 IH1|r1 IH1 r2 IH2|r1 IH1 r2 IH2|i r1 IH1];
    simpl; intros Hq s n g k x Hg H.
  - exists "", s, g. rewrite Nat.add_0_r. auto.
  - destruct s as [|c s]; [discriminate|].
    destruct (atom_ok fl a c) eqn:Hc; [|discriminate].
    exists (String c ""), s, g. simpl. rewrite (q_sound _ _ Hq Hc).
    replace (n + 1) with (S n) by lia.
    repeat split; auto. apply (marks_grow g n); [lia | exact Hg].
  - destruct (greedy_consumes _ _ _ _ _ H) as (u & v & -> & Hu & Hk).
    exists u, v, g. rewrite (all_chars_weaken fl q P q_sound _ _ Hq Hu).
    repeat split; auto. apply (marks_grow g n); [lia | exact Hg].
  - destruct s as [|c s]; [discriminate|].
    destruct (atom_ok fl a c) eqn:Hc; [|discriminate].
    destruct (greedy_consumes _ _ _ _ _ H) as (u & v & -> & Hu & Hk).
    exists (String c u), v, g. simpl.
    rewrite (q_sound _ _ Hq Hc), (all_chars_weaken fl q P q_sound _ _ Hq Hu).
    replace (n + S (String.length u)) with (S n + String.length u) by lia.
    repeat split; auto. apply (marks_grow g n); [lia | exact Hg].
  - destruct (rmatch fl r1 s n g k) as [y|] eqn:H1.
    + injection H as <-. exact (IH1 Hq _ _ _ _ _ Hg H1).
    + exists "", s, g. rewrite Nat.add_0_r. auto.
  - apply andb_true_iff in Hq as [Hq1 Hq2].
    destruct (IH1 Hq1 _ _ _ _ _ Hg H) as (u1 & v1 & g1 & -> & Hu1 & Hg1 & Hk1).
    destruct (IH2 Hq2 _ _ _ _ _ Hg1 Hk1)
      as (u2 & v2 & g2 & -> & Hu2 & Hg2 & Hk2).
    exists (u1 ++ u2), v2, g2.
    rewrite append_assoc, (all_chars_append P), Hu1, Hu2.
    rewrite length_append, Nat.add_assoc. auto.
  - apply andb_true_iff in Hq as [Hq1 Hq2].
    destruct (rmatch fl r1 s n g k) as [y|] eqn:H1.
    + injection H as <-. exact (IH1 Hq1 _ _ _ _ _ Hg H1).
    + exact (IH2 Hq2 _ _ _ _ _ Hg H).
  - destruct (IH1 Hq _ _ _ _ _ Hg H) as (u & v & g' & -> & Hu & Hg' & Hk).
    exists u, v, ((i, (n, n + String.length u)) :: g').
    repeat split; auto.
Qed.

Lemma match_here_consumes_marks (r : regex) (s : string) (adv : bool)
      (n : nat) (g : marks) :
  atoms_ok q r = true ->
  match_here fl r s adv = Some (n, g) ->
  exists u v, s = u ++ v /\ n = String.length u /\ all_chars P u = true
              /\ Forall (fun mk : nat * (nat * nat) =>
                           snd (snd mk) <= String.length u) g.
Proof.
  intros Hq H. unfold match_here in H.
  destruct (rmatch_consumes_marks r Hq _ _ _ _ _ (Forall_nil _) H)
    as (u & v & g' & -> & Hu & Hg & Hk).
  exists u, v. destruct (adv && (0 + String.length u =? 0)); [discriminate|].
  injection Hk as <- <-. auto.
Qed.

End Marks.

Lemma mark_of_in (i : nat) (g : marks) (a b : nat) :
  mark_of i g = Some (a, b) -> In (i, (a, b)) g.
Proof.
  induction g as [|[j span] g IH]; simpl; [discriminate|].
  destruct (Nat.eqb_spec i j) as [->|_].
  - intros H. injection H as ->. auto.
  - auto.
Qed.

(** A slice that lies inside a prefix [u] holds characters of [u] only. *)
Lemma slice_inside (P : ascii -> bool) :
  forall (u : string) (a m : nat) (v : string),
    all_chars P u = true -> a + m <= String.length u ->
    all_chars P (take m (drop a (u ++ v))) = true.
Proof.
  induction u as [|c u IH]; intros a m v Hu Hle; simpl in *.
  - replace a with 0 by lia. replace m with 0 by lia. destruct v; reflexivity.
  - apply andb_true_iff in Hu as [Hc Hu]. destruct a as [|a].
    + destruct m as [|m]; [reflexivity|]. simpl. rewrite Hc. simpl.
      specialize (IH 0 m v Hu ltac:(lia)).
      destruct (u ++ v); exact IH.
    + apply IH; [exact Hu | lia].
Qed.

Lemma take_zero (s : string) : take 0 s = "".
Proof. destruct s; reflexivity. Qed.

(** The replacement of a single-line match by a single-line template has no
    line break. *)
Lemma expand_single_line (t : template) (u v : string) (g : marks) :
  template_single_line t = true ->
  all_chars (fun c => negb (is_newline c)) u = true ->
  Forall (fun mk : nat * (nat * nat) => snd (snd mk) <= String.length u) g ->
  count_newlines (expand t (u ++ v) g) = 0.
Proof.
  intros Ht Hu Hg. induction t as [|[c|i] t IH]; simpl in *; [reflexivity| |].
  - apply andb_true_iff in Ht as [Hc Ht]. apply negb_true_iff in Hc.
    rewrite Hc, (IH Ht). reflexivity.
  - destruct (mark_of i g) as [[a b]|] eqn:Hm; [|exact (IH Ht)].
    rewrite count_newlines_append, (IH Ht), Nat.add_0_r.
    apply no_newline_count. rewrite substring_drop.
    destruct (b - a) as [|m] eqn:Hba; [rewrite take_zero; reflexivity|].
    apply slice_inside; [exact Hu|].
    rewrite Forall_forall in Hg. specialize (Hg _ (mark_of_in _ _ _ _ Hm)).
    simpl in Hg. lia.
Qed.

(** Replacing the matches of a single-line pattern by a single-line
    template keeps every line break. *)
Lemma sub_scan_keeps_lines (fl : flags) (r : regex) (t : template) :
  single_line fl r = true -> template_single_line t = true ->
  forall (s : string) (skip : nat),
    skip <= String.length s ->
    count_newlines (sub_scan fl r t s skip) = count_newlines (drop skip s).
Proof.
  intros Hr Ht.
  assert (Hit : forall c s adv m g,
             match_here fl r (String c s) adv = Some (S m, g) ->
             m <= String.length s /\
             count_newlines (expand t (String c s) g) = 0 /\
             count_newlines (String c s) = count_newlines (drop m s)).
  { intros c s adv m g H.
    destruct (match_here_consumes_marks fl _ _ (single_line_sound fl)
                r _ _ _ _ Hr H) as (u & v & Huv & Hn & Hu & Hg).
    rewrite Huv, (expand_single_line t u v g Ht Hu Hg).
    destruct u as [|d u]; [discriminate|]. simpl in Huv, Hn.
    injection Huv as -> ->. injection Hn as ->.
    rewrite length_append, drop_append. split; [lia|]. split; [reflexivity|].
    rewrite count_newlines_append, (no_newline_count _ Hu). reflexivity. }
  assert (Hempty : forall s adv g,
             match_here fl r s adv = Some (0, g) ->
             count_newlines (expand t s g) = 0).
  { intros s adv g H.
    destruct (match_here_consumes_marks fl _ _ (single_line_sound fl)
                r _ _ _ _ Hr H) as (u & v & Huv & Hn & Hu & Hg).
    rewrite Huv. exact (expand_single_line t u v g Ht Hu Hg). }
  induction s as [|c s IH]; intros skip Hskip.
  - simpl in Hskip. replace skip with 0 by lia. simpl.
    destruct (match_here fl r "" false) as [[n g]|] eqn:H; [|reflexivity].
    destruct (match_here_consumes_marks fl _ _ (single_line_sound fl)
                r _ _ _ _ Hr H) as (u & v & Huv & Hn & Hu & Hg).
    rewrite Huv. exact (expand_single_line t u v g Ht Hu Hg).
  - destruct skip as [|m].
    + cbn [sub_scan drop].
      destruct (match_here fl r (String c s) false) as [[[|m] g]|] eqn:H1.
      * rewrite count_newlines_append, (Hempty _ _ _ H1).
        destruct (match_here fl r (String c s) true) as [[[|m] g2]|] eqn:H2.
        -- simpl. rewrite (IH 0) by lia. destruct s; reflexivity.
        -- destruct (Hit _ _ _ _ _ H2) as (Hm & He & Hc).
           rewrite count_newlines_append, He, IH by exact Hm.
           symmetry. exact Hc.
        -- simpl. rewrite (IH 0) by lia. destruct s; reflexivity.
      * destruct (Hit _ _ _ _ _ H1) as (Hm & He & Hc).
        rewrite count_newlines_append, He, IH by exact Hm.
        symmetry. exact Hc.
      * simpl. rewrite (IH 0) by lia. destruct s; reflexivity.
    + simpl in Hskip. cbn [sub_scan drop]. apply IH. lia.
Qed.

Lemma subs_keeps_lines (steps : list step) :
  forallb keeps_lines steps = true ->
  forall sql : string,
  exists out, subs steps sql = Ok out
              /\ count_newlines out = count_newlines sql.
Proof.
  induction steps as [|[[pattern repl] fl] steps IH]; intros Hk sql.
  - exists sql. auto.
  - cbn [forallb] in Hk. apply andb_true_iff in Hk as [H1 H2].
    cbn [subs]. unfold keeps_lines in H1. unfold re_sub.
    destruct (re_compile pattern) as [[r ng]|]; [|discriminate].
    destruct (parse_template repl ng) as [t|]; [|discriminate].
    apply andb_true_iff in H1 as [Hr Ht]. cbn [bind].
    destruct (IH H2 (sub_scan fl r t sql 0)) as (out & Hout & Hc).
    exists out. split; [exact Hout|]. rewrite Hc.
    rewrite (sub_scan_keeps_lines fl r t Hr Ht sql 0) by lia.
    destruct sql; reflexivity.
Qed.

(** *** Patterns of the other rules *)

Section MorePatterns.
Import Compiled.

Lemma compile_analyze : re_compile "analyze [\.\w\s]*;" = Some (analyze, 0).
Proof. vm_compute. reflexivity. Qed.

Lemma compile_varchar : re_compile " varchar\([0-9]+\)" = Some (varchar, 0).
Proof. vm_compute. reflexivity. Qed.

Lemma compile_convert_timezone_pacific :
  re_compile "convert_timezone\(('pst'|'pdt')"
  = Some (convert_timezone_pacific, 1).
Proof. vm_compute. reflexivity. Qed.

Lemma atom_ok_analyze (c : ascii) :
  atom_ok IGNORECASE analyze_set c = is_analyze_char c.
Proof.
  destruct c as [[] [] [] [] [] [] [] []]; reflexivity.
Qed.

Lemma atom_ok_size (c : ascii) : atom_ok IGNORECASE size_set c = is_digit c.
Proof. destruct c as [[] [] [] [] [] [] [] []]; reflexivity. Qed.

(** A literal word of the pattern against a text that starts with the word
    in some letter case. *)
Lemma rmatch_lits_word (fl : flags) (w : string) (r : regex) (kw v : string)
      (n : nat) (g : marks) (k : cont) :
  String.length kw = String.length w ->
  starts_with (ignorecase fl) w kw = true ->
  rmatch fl (lits w r) (kw ++ v) n g k
  = rmatch fl r v (n + String.length kw) g k.
Proof.
  intros Hlen Hst. rewrite rmatch_lits, (starts_with_append _ _ _ _ Hst).
  rewrite <- Hlen, drop_append. reflexivity.
Qed.

(** [a*] over a run [u] of characters [a] accepts, followed by a text on
    which [a] stops. *)
Lemma rmatch_star_run (fl : flags) (a : atom) (q : regex) (u v : string)
      (n : nat) (g : marks) (k : cont) (x : nat * marks) :
  all_chars (atom_ok fl a) u = true -> stops (atom_ok fl a) v = true ->
  rmatch fl q v (n + String.length u) g k = Some x ->
  rmatch fl (RCat (RStar a) q) (u ++ v) n g k = Some x.
Proof.
  intros Hu Hv Hk.
  change (greedy (atom_ok fl a) (u ++ v) n
                 (fun s' n' => rmatch fl q s' n' g k) = Some x).
  apply greedy_run; assumption.
Qed.

Lemma analyze_here (kw body rest : string) :
  String.length kw = 8 -> starts_with true "analyze " kw = true ->
  all_chars is_analyze_char body = true ->
  match_here IGNORECASE analyze ((kw ++ body ++ ";") ++ rest) false
  = Some (String.length (kw ++ body ++ ";"), []).
Proof.
  intros Hlen Hst Hb. unfold match_here, analyze. rewrite !append_assoc.
  rewrite (rmatch_lits_word IGNORECASE "analyze " _ kw _ _ _ _ Hlen Hst).
  apply rmatch_star_run.
  - rewrite (all_chars_ext _ _ _ atom_ok_analyze). exact Hb.
  - reflexivity.
  - rewrite (rmatch_lits_word IGNORECASE ";" _ ";" rest _ _ _ eq_refl eq_refl).
    cbn [rmatch andb]. apply (f_equal Some). apply f_equal2; [|reflexivity].
    rewrite !length_append. simpl. lia.
Qed.

Lemma rindex_append_head (c : ascii) (u v : string) :
  rindex c (u ++ String c v) <> None.
Proof.
  induction u as [|d u IH]; simpl.
  - destruct (rindex c v); [discriminate|]. rewrite Ascii.eqb_refl.
    discriminate.
  - destruct (rindex c (u ++ String c v)); [discriminate | contradiction].
Qed.

Lemma lit_ok_semicolon (c : ascii) : lit_ok true ";" c = Ascii.eqb c ";".
Proof. destruct c as [[] [] [] [] [] [] [] []]; reflexivity. Qed.

(** The pattern of [parse_analyze] needs a semicolon. *)
Lemma analyze_scan_needs_semicolon :
  forall s : string,
    rindex ";" s = None -> search_scan IGNORECASE analyze s = false.
Proof.
  assert (Hhere : forall s, rindex ";" s = None ->
                            match_here IGNORECASE analyze s false = None).
  { intros s Hs. unfold match_here, analyze. rewrite rmatch_lits.
    destruct (starts_with _ _ s); [|reflexivity].
    cbn [rmatch].
    match goal with |- ?G = None => destruct G as [x|] eqn:H end;
      [|reflexivity].
    destruct (greedy_consumes _ _ _ _ _ H) as (u & v & Huv & _ & Hk).
    exfalso. destruct v as [|d v]; [discriminate|]. cbn in Hk.
    change (Ascii.eqb (to_lower d) (to_lower ";"))
      with (lit_ok true ";" d) in Hk.
    rewrite lit_ok_semicolon in Hk.
    destruct (Ascii.eqb_spec d ";") as [->|_]; [|discriminate].
    pose proof (rindex_none_drop ";" (String.length "analyze ") s Hs) as Hn.
    rewrite Huv in Hn. exact (rindex_append_head _ _ _ Hn). }
  induction s as [|c s IH]; intros Hs; cbn [search_scan];
    rewrite (Hhere _ Hs); [reflexivity|].
  apply IH. eapply rindex_none_tail. exact Hs.
Qed.

Lemma varchar_here (kw size rest : string) :
  String.length kw = 9 -> starts_with true " varchar(" kw = true ->
  is_number size = true ->
  match_here IGNORECASE varchar ((kw ++ size ++ ")") ++ rest) false
  = Some (String.length (kw ++ size ++ ")"), []).
Proof.
  intros Hlen Hst Hn. unfold match_here, varchar. rewrite !append_assoc.
  rewrite (rmatch_lits_word IGNORECASE " varchar(" _ kw _ _ _ _ Hlen Hst).
  match goal with
  | |- rmatch ?f (RCat (RPlus ?a) ?q) ?s ?n ?g ?k = ?rhs =>
      change (rmatch f (RPlus a) s n g
                     (fun s' n' g' => rmatch f q s' n' g' k) = rhs)
  end.
  apply rmatch_plus_run.
  - destruct size; [discriminate | congruence].
  - rewrite (all_chars_ext _ _ _ atom_ok_size).
    destruct size; [discriminate | exact Hn].
  - reflexivity.
  - rewrite (rmatch_lits_word IGNORECASE ")" _ ")" rest _ _ _ eq_refl eq_refl).
    cbn [rmatch andb]. apply (f_equal Some). apply f_equal2; [|reflexivity].
    rewrite !length_append. simpl. lia.
Qed.

Lemma convert_timezone_pacific_here (kw zone rest : string) :
  String.length kw = 17 -> starts_with true "convert_timezone(" kw = true ->
  String.length zone = 5 ->
  starts_with true "'pst'" zone || starts_with true "'pdt'" zone = true ->
  exists g,
    match_here (IGNORECASE +f MULTILINE) convert_timezone_pacific
               ((kw ++ zone) ++ rest) false
    = Some (String.length (kw ++ zone), g).
Proof.
  intros Hlen Hst Hz Hzone. unfold match_here, convert_timezone_pacific.
  rewrite !append_assoc.
  rewrite (rmatch_lits_word (IGNORECASE +f MULTILINE) "convert_timezone(" _
             kw _ _ _ _ Hlen Hst).
  cbn [rmatch]. rewrite !rmatch_lits.
  change (ignorecase (IGNORECASE +f MULTILINE)) with true.
  change (String.length "'pst'") with 5. change (String.length "'pdt'") with 5.
  rewrite <- Hz, drop_append. cbn [rmatch andb].
  rewrite length_append.
  apply orb_true_iff in Hzone as [H1|H2].
  - rewrite (starts_with_append _ _ _ _ H1). eexists. reflexivity.
  - destruct (starts_with true "'pst'" (zone ++ rest));
      [eexists; reflexivity|].
    rewrite (starts_with_append _ _ _ _ H2). eexists. reflexivity.
Qed.

End MorePatterns.

(** A rule made of one [re.sub] whose pattern is a literal word and whose
    replacement is a literal text, on a text that starts with the word in
    some letter case. *)
Lemma literal_step_head (pattern repl : string) (fl : flags) (w : string)
      (kw rest : string) :
  re_compile pattern = Some (lits w REmpty, 0) ->
  parse_template repl 0 = Some (Compiled.tlits repl []) ->
  kw <> "" -> String.length kw = String.length w ->
  starts_with (ignorecase fl) w kw = true ->
  subs [(pattern, repl, fl)] (kw ++ rest)
  = (out <- subs [(pattern, repl, fl)] rest ;; Ok (repl ++ out)).
Proof.
  intros Hc Ht Hne Hlen Hst. cbn [subs].
  rewrite !(re_sub_compiled _ _ _ _ _ _ _ Hc Ht). cbn [bind].
  rewrite (lits_scan fl w _ kw rest Hne Hlen Hst), expand_tlits.
  rewrite append_empty_r. reflexivity.
Qed.

(** *** A literal pattern replaced by the same word in another case *)

Lemma same_letters_refl (s : string) : same_letters s s = true.
Proof.
  induction s as [|c s IH]; simpl; [|rewrite Ascii.eqb_refl, IH]; reflexivity.
Qed.

Lemma same_letters_append (a b c d : string) :
  same_letters a b = true -> same_letters c d = true ->
  same_letters (a ++ c) (b ++ d) = true.
Proof.
  revert b; induction a as [|x a IH]; intros [|y b] Hab Hcd;
    simpl in *; try discriminate; [exact Hcd|].
  apply andb_true_iff in Hab as [Hxy Hab]. rewrite Hxy, (IH _ Hab Hcd).
  reflexivity.
Qed.

Lemma same_letters_length (a b : string) :
  same_letters a b = true -> String.length a = String.length b.
Proof.
  revert b; induction a as [|x a IH]; intros [|y b] H; simpl in *;
    try discriminate; [reflexivity|].
  apply andb_true_iff in H as [_ H]. rewrite (IH _ H). reflexivity.
Qed.

(** Whether a text starts with a word, case ignored, depends on its letters
    only. *)
Lemma starts_with_same_letters (w a b : string) :
  same_letters a b = true -> starts_with true w a = starts_with true w b.
Proof.
  revert a b; induction w as [|l w IH]; intros a b H; [reflexivity|].
  destruct a as [|x a], b as [|y b]; simpl in *; try discriminate;
    [reflexivity|].
  apply andb_true_iff in H as [Hxy H]. apply Ascii.eqb_eq in Hxy.
  unfold lit_ok. rewrite Hxy, (IH _ _ H). reflexivity.
Qed.

(** Two texts that both are a word, case ignored, have the same letters. *)
Lemma same_word_same_letters (w a b : string) :
  starts_with true w a = true -> starts_with true w b = true ->
  String.length a = String.length w -> String.length b = String.length w ->
  same_letters a b = true.
Proof.
  revert a b; induction w as [|l w IH]; intros a b Ha Hb La Lb.
  - destruct a, b; try discriminate. reflexivity.
  - destruct a as [|x a], b as [|y b]; simpl in *; try discriminate.
    apply andb_true_iff in Ha as [Hx Ha]. apply andb_true_iff in Hb as [Hy Hb].
    unfold lit_ok in Hx, Hy. apply Ascii.eqb_eq in Hx, Hy.
    rewrite Hx, Hy, Ascii.eqb_refl. simpl. apply IH; auto.
Qed.

(** A text that starts with a word splits into the word and the rest. *)
Lemma starts_with_split (ic : bool) (w : string) :
  forall s : string,
    starts_with ic w s = true ->
    exists u v, s = u ++ v /\ String.length u = String.length w
                /\ starts_with ic w u = true.
Proof.
  induction w as [|l w IH]; intros s H.
  - exists "", s. auto.
  - destruct s as [|c s]; [discriminate|]. simpl in H.
    apply andb_true_iff in H as [Hc H].
    destruct (IH _ H) as (u & v & -> & Hlen & Hu).
    exists (String c u), v. simpl. rewrite Hc, Hu, Hlen. auto.
Qed.

Section CaseOnly.
Import Compiled.
Variables (fl : flags) (w r : string).
Hypothesis ignore_case : ignorecase fl = true.
Hypothesis word_not_empty : w <> "".
Hypothesis same_length : String.length r = String.length w.
Hypothesis same_word : starts_with true w r = true.

Lemma case_only_here (s : string) :
  match_here fl (lits w REmpty) s false
  = if starts_with true w s then Some (String.length w, []) else None.
Proof.
  unfold match_here. rewrite rmatch_lits, ignore_case.
  destruct (starts_with true w s); reflexivity.
Qed.

Lemma case_only_hit (u v : string) :
  String.length u = String.length w -> starts_with true w u = true ->
  literal_scan fl w r (u ++ v) = r ++ literal_scan fl w r v.
Proof.
  intros Hlen Hu. unfold literal_scan.
  rewrite (lits_scan fl w _ u v); [| | exact Hlen | rewrite ignore_case; exact Hu].
  - rewrite expand_tlits, append_empty_r. reflexivity.
  - destruct u; [|discriminate]. destruct w; [congruence | discriminate].
Qed.

Lemma case_only_miss (c : ascii) (s : string) :
  starts_with true w (String c s) = false ->
  literal_scan fl w r (String c s)
  = String c (literal_scan fl w r s).
Proof.
  intros H. unfold literal_scan. apply sub_scan_miss.
  rewrite case_only_here, H. reflexivity.
Qed.

Lemma case_only_empty : literal_scan fl w r "" = "".
Proof.
  unfold literal_scan. simpl. rewrite case_only_here.
  destruct w; [congruence | reflexivity].
Qed.

(** The scan changes nothing but the case of letters, and scanning again
    changes nothing. *)
Lemma case_only_scan :
  forall (n : nat) (s : string),
    String.length s <= n ->
    same_letters (literal_scan fl w r s) s = true /\
    literal_scan fl w r (literal_scan fl w r s) = literal_scan fl w r s.
Proof.
  induction n as [|n IH]; intros s Hn.
  - destruct s; [|simpl in Hn; lia]. rewrite !case_only_empty. auto.
  - destruct s as [|c s]; [rewrite !case_only_empty; auto|].
    destruct (starts_with true w (String c s)) eqn:Hst.
    + destruct (starts_with_split _ _ _ Hst) as (u & v & Huv & Hlen & Hu).
      rewrite Huv, (case_only_hit u v Hlen Hu).
      assert (Hv : String.length v <= n).
      { assert (String.length (String c s) = String.length u + String.length v)
          by (rewrite Huv; apply length_append).
        assert (0 < String.length w)
          by (destruct w; [congruence | simpl; lia]).
        simpl in *. lia. }
      destruct (IH v Hv) as [Hsame Hidem]. split.
      * apply same_letters_append; [|exact Hsame].
        exact (same_word_same_letters w r u same_word Hu same_length Hlen).
      * rewrite (case_only_hit r (literal_scan fl w r v) same_length same_word), Hidem.
        reflexivity.
    + rewrite (case_only_miss c s Hst).
      destruct (IH s ltac:(simpl in Hn; lia)) as [Hsame Hidem].
      assert (Hsame' : same_letters (String c (literal_scan fl w r s)) (String c s) = true).
      { simpl. rewrite Ascii.eqb_refl, Hsame. reflexivity. }
      split; [exact Hsame'|].
      rewrite case_only_miss, Hidem; [reflexivity|].
      rewrite (starts_with_same_letters w _ _ Hsame'). exact Hst.
Qed.

End CaseOnly.

(** *** The patterns of [parse_bool] and [parse_encoding] *)

Section BoolEncode.
Import Compiled.

Lemma atom_ok_space (fl : flags) (c : ascii) :
  atom_ok fl space_set c = is_space c.
Proof. simpl. apply orb_false_r. Qed.

Lemma compile_bool_column :
  re_compile " bool[\s]*([,\n])" = Some (bool_column, 1).
Proof. vm_compute. reflexivity. Qed.

Lemma template_bool_column :
  parse_template " boolean\1" 1 = Some bool_column_template.
Proof. vm_compute. reflexivity. Qed.

Lemma compile_bool_cast : re_compile "::[\s]*bool " = Some (bool_cast, 0).
Proof. vm_compute. reflexivity. Qed.

Lemma bool_column_here (kw ws rest : string) :
  String.length kw = 5 -> starts_with true " bool" kw = true ->
  all_chars is_space ws = true ->
  exists g,
    match_here IGNORECASE bool_column ((kw ++ ws ++ ",") ++ rest) false
    = Some (String.length (kw ++ ws ++ ","), g)
    /\ expand bool_column_template ((kw ++ ws ++ ",") ++ rest) g
       = " boolean,".
Proof.
  intros Hlen Hst Hws. eexists. split.
  - unfold match_here, bool_column. rewrite !append_assoc.
    rewrite (rmatch_lits_word IGNORECASE " bool" _ kw _ _ _ _ Hlen Hst).
    apply rmatch_star_run.
    + rewrite (all_chars_ext _ _ _ (atom_ok_space IGNORECASE)). exact Hws.
    + reflexivity.
    + cbn. apply (f_equal Some). apply f_equal2; [|reflexivity].
      rewrite !length_append. simpl. lia.
  - unfold bool_column_template. rewrite expand_tlits.
    cbn [expand mark_of Nat.eqb].
    rewrite (slice_at ((kw ++ ws ++ ",") ++ rest) (kw ++ ws) "," rest);
      [reflexivity
      | rewrite !append_assoc; reflexivity
      | rewrite ?length_append; lia
      | simpl; lia].
Qed.

Lemma compile_encode_comma :
  re_compile "[\s]encode .*," = Some (encode_comma, 0).
Proof. vm_compute. reflexivity. Qed.

Lemma compile_encode_rest :
  re_compile "[\s]encode .*" = Some (encode_rest, 0).
Proof. vm_compute. reflexivity. Qed.

Lemma compile_timestamp_ntz :
  re_compile "[\s]timestamp without time zone" = Some (timestamp_ntz, 0).
Proof. vm_compute. reflexivity. Qed.

(** Greedy repetition first takes every character of a run it accepts. *)
Lemma greedy_prefix {A : Type} (ok : ascii -> bool)
      (k : string -> nat -> option A) :
  forall (u v : string) (n : nat) (x : A),
    all_chars ok u = true ->
    greedy ok v (n + String.length u) k = Some x ->
    greedy ok (u ++ v) n k = Some x.
Proof.
  induction u as [|c u IH]; intros v n x Hu Hk; simpl in *.
  - rewrite Nat.add_0_r in Hk. exact Hk.
  - apply andb_true_iff in Hu as [Hc Hu]. rewrite Hc.
    rewrite (IH v (S n) x Hu); [reflexivity|].
    replace (S n + String.length u) with (n + S (String.length u)) by lia.
    exact Hk.
Qed.

(** Where the repetition stops at once, the rest decides. *)
Lemma greedy_stop {A : Type} (ok : ascii -> bool)
      (k : string -> nat -> option A) (v : string) (n : nat) :
  stops ok v = true -> greedy ok v n k = k v n.
Proof.
  destruct v as [|c v]; simpl; [reflexivity|].
  intros H. apply negb_true_iff in H. rewrite H. reflexivity.
Qed.

Lemma is_newline_eq (c : ascii) : is_newline c = true -> c = newline.
Proof.
  unfold is_newline, code. intros H. apply Nat.eqb_eq in H.
  rewrite <- (ascii_nat_embedding c), H. reflexivity.
Qed.

Lemma atom_ok_dot (c : ascii) : atom_ok IGNORECASE ADot c = not_newline c.
Proof. reflexivity. Qed.

Lemma no_comma_at_line_end (rest : string) :
  stops not_newline rest = true -> starts_with true "," rest = false.
Proof.
  destruct rest as [|d r]; [reflexivity|]. unfold stops, not_newline.
  rewrite negb_involutive. intros H. rewrite (is_newline_eq d H).
  reflexivity.
Qed.

Lemma encode_comma_here (c : ascii) (kw body rest : string) :
  is_space c = true ->
  String.length kw = 7 -> starts_with true "encode " kw = true ->
  all_chars not_newline body = true -> stops not_newline rest = true ->
  match_here IGNORECASE encode_comma (String c (kw ++ body ++ ",") ++ rest)
             false
  = Some (String.length (String c (kw ++ body ++ ",")), []).
Proof.
  intros Hc Hlen Hst Hb Hr. unfold match_here, encode_comma.
  change (String c (kw ++ body ++ ",") ++ rest)
    with (String c ((kw ++ body ++ ",") ++ rest)).
  cbn [rmatch]. rewrite atom_ok_space, Hc. rewrite !append_assoc.
  rewrite (rmatch_lits_word IGNORECASE "encode " _ kw _ _ _ _ Hlen Hst).
  change (greedy (atom_ok IGNORECASE ADot) (body ++ "," ++ rest)
                 (1 + String.length kw)
                 (fun s' n' => rmatch IGNORECASE (lits "," REmpty) s' n' []
                                 (fun _ n g =>
                                    if false && (n =? 0) then None
                                    else Some (n, g)))
          = Some (String.length (String c (kw ++ body ++ ",")), [])).
  apply greedy_prefix.
  - rewrite (all_chars_ext _ _ _ atom_ok_dot). exact Hb.
  - change ("," ++ rest) with (String "," rest). cbn [greedy].
    change (atom_ok IGNORECASE ADot ",") with true. cbv iota.
    rewrite greedy_stop
      by (rewrite (stops_ext _ _ _ atom_ok_dot); exact Hr).
    rewrite !rmatch_lits. change (ignorecase IGNORECASE) with true.
    rewrite (no_comma_at_line_end rest Hr).
    change (starts_with true "," (String "," rest)) with true. cbv iota.
    cbn [rmatch andb]. apply (f_equal Some). apply f_equal2; [|reflexivity].
    simpl. rewrite !length_append. simpl. lia.
Qed.

Lemma bool_cast_skips (t : template) (y : string) :
  sub_scan IGNORECASE bool_cast t (" boolean," ++ y) 0
  = " boolean," ++ sub_scan IGNORECASE bool_cast t y 0.
Proof. reflexivity. Qed.

Lemma encode_rest_skips_comma (t : template) (y : string) :
  sub_scan IGNORECASE encode_rest t (String "," y) 0
  = String "," (sub_scan IGNORECASE encode_rest t y 0).
Proof. reflexivity. Qed.

Lemma timestamp_ntz_skips_comma (t : template) (y : string) :
  sub_scan IGNORECASE timestamp_ntz t (String "," y) 0
  = String "," (sub_scan IGNORECASE timestamp_ntz t y 0).
Proof. reflexivity. Qed.

(** *** An [encode] hint that ends its line *)

Lemma lit_ok_comma (c : ascii) : lit_ok true "," c = Ascii.eqb c ",".
Proof. destruct c as [[] [] [] [] [] [] [] []]; reflexivity. Qed.

Lemma on_line_append (d : ascii) (a v : string) :
  all_chars (lacks d) a = true -> on_line d (a ++ v) = on_line d v.
Proof.
  induction a as [|c a IH]; simpl; [reflexivity|]; intros H.
  apply andb_true_iff in H as [Hc Ha]. unfold lacks in Hc.
  apply andb_true_iff in Hc as [H1 H2].
  apply negb_true_iff in H1, H2. rewrite H1, H2. exact (IH Ha).
Qed.

Lemma on_line_found (d : ascii) (u v : string) :
  is_newline d = false ->
  all_chars not_newline u = true -> on_line d (u ++ String d v) = true.
Proof.
  intros Hd. induction u as [|c u IH]; simpl; intros H.
  - rewrite Hd, Ascii.eqb_refl. reflexivity.
  - apply andb_true_iff in H as [Hc Hu]. unfold not_newline in Hc.
    apply negb_true_iff in Hc. rewrite Hc.
    destruct (Ascii.eqb c d); [reflexivity | exact (IH Hu)].
Qed.

(** A word that equals, letter case apart, a word without the character
    [d] does not hold [d]. *)
Lemma starts_with_lacks (d : ascii) (w : string) :
  forall u : string,
    all_chars (fun l => negb (lit_ok true l d)) w = true ->
    starts_with true w u = true -> String.length u = String.length w ->
    all_chars (fun c => negb (Ascii.eqb c d)) u = true.
Proof.
  induction w as [|l w IH]; intros [|c u] Hw Hst Hlen;
    try reflexivity; try discriminate.
  cbn [all_chars starts_with String.length] in *.
  apply andb_true_iff in Hw as [Hl Hw].
  apply andb_true_iff in Hst as [Hc Hst].
  rewrite (IH u Hw Hst) by lia. rewrite andb_true_r.
  destruct (Ascii.eqb_spec c d) as [->|]; [|reflexivity].
  rewrite Hc in Hl. discriminate.
Qed.

Lemma not_newline_eqb (c : ascii) :
  not_newline c = negb (Ascii.eqb c newline).
Proof. destruct c as [[] [] [] [] [] [] [] []]; reflexivity. Qed.

(** A word that equals [encode ], letter case apart, holds neither a line
    break nor a comma. *)
Lemma encode_word_plain (kw : string) :
  String.length kw = 7 -> starts_with true "encode " kw = true ->
  all_chars (lacks ",") kw = true.
Proof.
  intros Hlen Hst.
  pose proof (starts_with_lacks newline "encode " kw eq_refl Hst Hlen) as Hn.
  pose proof (starts_with_lacks "," "encode " kw eq_refl Hst Hlen) as Hc.
  clear Hlen Hst. induction kw as [|c kw IH]; [reflexivity|].
  cbn [all_chars] in *.
  apply andb_true_iff in Hn as [Hn1 Hn2]. apply andb_true_iff in Hc as [Hc1 Hc2].
  rewrite (IH Hn2 Hc2), andb_true_r.
  unfold lacks. fold (not_newline c).
  rewrite not_newline_eqb, Hn1, Hc1. reflexivity.
Qed.

Lemma plain_not_newline (u : string) :
  all_chars (lacks ",") u = true -> all_chars not_newline u = true.
Proof.
  induction u as [|c u IH]; simpl; [reflexivity|]; intros H.
  apply andb_true_iff in H as [Hc Hu]. rewrite (IH Hu), andb_true_r.
  unfold lacks in Hc. apply andb_true_iff in Hc as [Hc _]. exact Hc.
Qed.

(** The first pattern of [parse_encoding] needs a comma on the line of
    the keyword. *)
Lemma encode_comma_needs_comma (c : ascii) (s : string) (x : nat * marks) :
  match_here IGNORECASE encode_comma (String c s) false = Some x ->
  on_line "," s = true.
Proof.
  unfold match_here, encode_comma. cbn [rmatch].
  destruct (atom_ok IGNORECASE space_set c); [|discriminate].
  rewrite rmatch_lits. change (ignorecase IGNORECASE) with true.
  destruct (starts_with true "encode " s) eqn:Hst; [|discriminate].
  destruct (starts_with_split _ _ _ Hst) as (kw & v & -> & Hlen & Hkw).
  change (String.length "encode ") with 7 in *.
  rewrite <- Hlen, drop_append. intros H.
  change (greedy (atom_ok IGNORECASE ADot) v (1 + String.length kw)
                 (fun s' n' => rmatch IGNORECASE (lits "," REmpty) s' n' []
                                 (fun _ n g =>
                                    if false && (n =? 0) then None
                                    else Some (n, g)))
          = Some x) in H.
  apply greedy_consumes in H as (u & w & -> & Hu & Hk).
  rewrite rmatch_lits in Hk. change (ignorecase IGNORECASE) with true in Hk.
  destruct w as [|d w]; [discriminate|].
  cbn [starts_with] in Hk. rewrite lit_ok_comma in Hk.
  destruct (Ascii.eqb_spec d ","); [subst d | discriminate].
  rewrite <- append_assoc. apply on_line_found; [reflexivity|].
  rewrite all_chars_append, (all_chars_ext _ _ _ atom_ok_dot) in *.
  rewrite Hu, andb_true_r.
  apply plain_not_newline, encode_word_plain; assumption.
Qed.

Lemma encode_comma_misses (c : ascii) (s : string) :
  on_line "," s = false ->
  match_here IGNORECASE encode_comma (String c s) false = None.
Proof.
  intros H.
  destruct (match_here IGNORECASE encode_comma (String c s) false) eqn:E;
    [|reflexivity].
  rewrite (encode_comma_needs_comma c s p E) in H. discriminate.
Qed.

(** [re.sub] of the first pattern passes over a line without comma. *)
Lemma encode_comma_passes (t : template) (rest : string) :
  on_line "," rest = false ->
  forall (p : string) (c : ascii),
    all_chars (lacks ",") p = true ->
    sub_scan IGNORECASE encode_comma t (String c p ++ rest) 0
    = String c p ++ sub_scan IGNORECASE encode_comma t rest 0.
Proof.
  intros Hr. induction p as [|d p IH]; intros c Hp.
  - change (String c "" ++ rest) with (String c rest).
    rewrite (sub_scan_miss _ _ _ _ _ (encode_comma_misses c rest Hr)).
    reflexivity.
  - change (String c (String d p) ++ rest)
      with (String c (String d p ++ rest)).
    rewrite sub_scan_miss.
    + simpl in Hp. apply andb_true_iff in Hp as [_ Hp].
      rewrite (IH d Hp). reflexivity.
    + apply encode_comma_misses.
      rewrite (on_line_append "," (String d p) rest Hp). exact Hr.
Qed.

Lemma line_end_no_comma (rest : string) :
  line_ends_here rest = true -> on_line "," rest = false.
Proof.
  destruct rest as [|d r]; [reflexivity|]. intros H.
  unfold line_ends_here in H. apply andb_true_iff in H as [H _].
  cbn [on_line]. rewrite H. reflexivity.
Qed.

Lemma encode_comma_line_end (t : template) (rest : string) :
  line_ends_here rest = true ->
  stops not_newline (sub_scan IGNORECASE encode_comma t rest 0) = true.
Proof.
  destruct rest as [|d r]; [reflexivity|]. intros H.
  unfold line_ends_here in H. apply andb_true_iff in H as [Hd Hr].
  apply negb_true_iff in Hr.
  rewrite sub_scan_miss.
  - unfold stops, not_newline. rewrite Hd. reflexivity.
  - unfold match_here, encode_comma. cbn [rmatch].
    destruct (atom_ok IGNORECASE space_set d); [|reflexivity].
    rewrite rmatch_lits. change (ignorecase IGNORECASE) with true.
    rewrite Hr. reflexivity.
Qed.

Lemma encode_rest_here (c : ascii) (kw body y : string) :
  is_space c = true ->
  String.length kw = 7 -> starts_with true "encode " kw = true ->
  all_chars not_newline body = true -> stops not_newline y = true ->
  match_here IGNORECASE encode_rest (String c (kw ++ body) ++ y) false
  = Some (String.length (String c (kw ++ body)), []).
Proof.
  intros Hc Hlen Hst Hb Hy. unfold match_here, encode_rest.
  change (String c (kw ++ body) ++ y) with (String c ((kw ++ body) ++ y)).
  cbn [rmatch]. rewrite atom_ok_space, Hc. rewrite !append_assoc.
  rewrite (rmatch_lits_word IGNORECASE "encode " _ kw _ _ _ _ Hlen Hst).
  apply rmatch_star_run.
  - rewrite (all_chars_ext _ _ _ atom_ok_dot). exact Hb.
  - rewrite (stops_ext _ _ _ atom_ok_dot). exact Hy.
  - cbn [rmatch andb]. apply (f_equal Some). apply f_equal2; [|reflexivity].
    simpl. rewrite !length_append. lia.
Qed.

End BoolEncode.

(** *** The first pattern of [parse_dist_sort] *)

Section Diststyle.
Import Compiled.

Lemma compile_diststyle_word :
  re_compile "[\s]diststyle (all|even|auto|key)" = Some (diststyle_word, 1).
Proof. vm_compute. reflexivity. Qed.

Lemma diststyle_here (c : ascii) (kw1 kw2 rest : string) :
  is_space c = true ->
  String.length kw1 = 10 -> starts_with true "diststyle " kw1 = true ->
  is_diststyle kw2 = true ->
  exists g,
    match_here IGNORECASE diststyle_word (String c (kw1 ++ kw2) ++ rest) false
    = Some (String.length (String c (kw1 ++ kw2)), g).
Proof.
  intros Hc Hlen Hst Hk. unfold match_here, diststyle_word.
  change (String c (kw1 ++ kw2) ++ rest)
    with (String c ((kw1 ++ kw2) ++ rest)).
  cbn [rmatch]. rewrite atom_ok_space, Hc. rewrite !append_assoc.
  rewrite (rmatch_lits_word IGNORECASE "diststyle " _ kw1 _ _ _ _ Hlen Hst).
  cbn [rmatch]. rewrite !rmatch_lits. change (ignorecase IGNORECASE) with true.
  unfold is_diststyle in Hk. cbn [existsb diststyles] in Hk.
  rewrite orb_false_r in Hk.
  repeat (apply orb_true_iff in Hk as [Hk|Hk]);
    (match type of Hk with
     | same_letters _ ?w = true =>
         rewrite !(fun x => starts_with_same_letters x (kw2 ++ rest) (w ++ rest)
                              (same_letters_append _ _ _ _ Hk
                                 (same_letters_refl rest)))
     end);
    repeat (match goal with
            | |- context [starts_with true ?w (?a ++ rest)] =>
                let b := eval cbv in (starts_with true w (a ++ rest)) in
                change (starts_with true w (a ++ rest)) with b
            end);
    cbv iota;
    (match type of Hk with
     | same_letters _ ?w = true =>
         rewrite <- (same_letters_length _ _ Hk), drop_append
     end);
    cbn [rmatch andb]; eexists; apply (f_equal Some);
    (apply f_equal2; [|reflexivity]);
    simpl; rewrite !length_append; lia.
Qed.

End Diststyle.

(** *** The pattern of [parse_ctas] *)

Section Ctas.
Import Compiled.

Lemma compile_ctas :
  re_compile "create table (.*) \([\s]*like[\s]*(.*)[\s]*\)" = Some (ctas, 2).
Proof. vm_compute. reflexivity. Qed.

Lemma template_ctas :
  parse_template "create table \1 like \2" 2 = Some ctas_template.
Proof. vm_compute. reflexivity. Qed.

Lemma all_chars_imp (p q : ascii -> bool) (u : string) :
  (forall c, p c = true -> q c = true) ->
  all_chars p u = true -> all_chars q u = true.
Proof.
  intros Hpq. induction u as [|c u IH]; simpl; [reflexivity|]; intros H.
  apply andb_true_iff in H as [Hc Hu]. rewrite (Hpq c Hc), (IH Hu).
  reflexivity.
Qed.

Lemma lit_ok_open (c : ascii) : lit_ok true "(" c = Ascii.eqb c "(".
Proof. destruct c as [[] [] [] [] [] [] [] []]; reflexivity. Qed.

Lemma lit_ok_close (c : ascii) : lit_ok true ")" c = Ascii.eqb c ")".
Proof. destruct c as [[] [] [] [] [] [] [] []]; reflexivity. Qed.

Lemma space_not_open (c : ascii) :
  is_space c = true -> negb (Ascii.eqb c "(") = true.
Proof. destruct c as [[] [] [] [] [] [] [] []]; intros H; try reflexivity; discriminate H. Qed.

Lemma space_not_close (c : ascii) :
  is_space c = true -> Ascii.eqb c ")" = false.
Proof. destruct c as [[] [] [] [] [] [] [] []]; intros H; try reflexivity; discriminate H. Qed.

Lemma newline_is_space (c : ascii) : is_space c = false -> not_newline c = true.
Proof. destruct c as [[] [] [] [] [] [] [] []]; intros H; try reflexivity; discriminate H. Qed.

Lemma letter_l_not_space (c : ascii) :
  lit_ok true "l" c = true -> is_space c = false.
Proof. destruct c as [[] [] [] [] [] [] [] []]; intros H; try reflexivity; discriminate H. Qed.

Lemma atom_ok_any (c : ascii) :
  atom_ok atrt_flags ADot c = not_newline c.
Proof. reflexivity. Qed.

Lemma on_line_absent (d : ascii) (u v : string) :
  all_chars (fun c => negb (Ascii.eqb c d)) u = true ->
  on_line d v = false -> on_line d (u ++ v) = false.
Proof.
  intros Hu Hv. induction u as [|c u IH]; simpl in *; [exact Hv|].
  apply andb_true_iff in Hu as [Hc Hu]. apply negb_true_iff in Hc.
  rewrite Hc, (IH Hu). destruct (is_newline c); reflexivity.
Qed.

Lemma line_end_on_line (d : ascii) (rest : string) :
  stops not_newline rest = true -> on_line d rest = false.
Proof.
  destruct rest as [|c r]; [reflexivity|]. unfold stops, not_newline.
  rewrite negb_involutive. simpl. intros ->. reflexivity.
Qed.

Lemma no_open_at_head (s : string) :
  on_line "(" s = false -> starts_with true "(" s = false.
Proof.
  destruct s as [|d s]; [reflexivity|]. cbn [on_line starts_with].
  rewrite lit_ok_open. destruct (Ascii.eqb_spec d "(") as [->|]; [|reflexivity].
  discriminate.
Qed.

(** On a line without opening parenthesis, a continuation that needs [ (]
    fails wherever [.*] stops. *)
Lemma greedy_needs_open (k : string -> nat -> option (nat * marks)) :
  (forall v n, starts_with true " (" v = false -> k v n = None) ->
  forall (s : string) (n : nat),
    on_line "(" s = false ->
    greedy (atom_ok atrt_flags ADot) s n k = None.
Proof.
  intros Hk. induction s as [|c s IH]; intros n H.
  - apply Hk. reflexivity.
  - cbn [greedy]. rewrite atom_ok_any. unfold not_newline.
    cbn [on_line] in H. destruct (is_newline c) eqn:En; cbn [negb].
    + apply Hk. rewrite (is_newline_eq c En). reflexivity.
    + destruct (Ascii.eqb c "(") eqn:Eo; [discriminate|].
      rewrite (IH _ H). apply Hk.
      change (starts_with true " (" (String c s))
        with (lit_ok true " " c && starts_with true "(" s).
      rewrite (no_open_at_head s H). apply andb_false_r.
Qed.

(** After whitespace that is not followed by a closing parenthesis, a
    continuation that needs [)] fails wherever [[\s]*] stops. *)
Lemma greedy_needs_close (k : string -> nat -> option (nat * marks)) :
  (forall v n, starts_with true ")" v = false -> k v n = None) ->
  forall (s : string) (n : nat),
    starts_with false ")" (lstrip s) = false ->
    greedy (atom_ok atrt_flags space_set) s n k = None.
Proof.
  intros Hk. induction s as [|c s IH]; intros n H.
  - apply Hk. reflexivity.
  - cbn [greedy]. rewrite atom_ok_space. cbn [lstrip] in H.
    destruct (is_space c) eqn:Es.
    + rewrite (IH _ H). apply Hk. cbn [starts_with].
      rewrite lit_ok_close, (space_not_close c Es). reflexivity.
    + apply Hk. cbn [starts_with] in *. rewrite lit_ok_close. exact H.
Qed.

Lemma like_stops (lk v : string) :
  starts_with true "like" lk = true ->
  stops (atom_ok atrt_flags space_set) (lk ++ v) = true.
Proof.
  destruct lk as [|c lk]; [discriminate|]. cbn [starts_with]. intros H.
  apply andb_true_iff in H as [H _]. unfold stops. cbn [append].
  rewrite atom_ok_space, (letter_l_not_space c H). reflexivity.
Qed.

Lemma name_stops (b rest : string) :
  all_chars name_char b = true ->
  stops (atom_ok atrt_flags space_set) (b ++ ")" ++ rest) = true.
Proof.
  destruct b as [|c b]; [reflexivity|]. cbn [all_chars]. intros H.
  apply andb_true_iff in H as [H _]. unfold name_char in H.
  apply andb_true_iff in H as [H _]. unfold stops. cbn [append].
  rewrite atom_ok_space. exact H.
Qed.

Lemma ctas_here (kw a ws1 lk ws2 b rest : string) :
  String.length kw = 13 -> starts_with true "create table " kw = true ->
  all_chars not_newline a = true ->
  all_chars is_space ws1 = true ->
  String.length lk = 4 -> starts_with true "like" lk = true ->
  all_chars is_space ws2 = true ->
  all_chars name_char b = true ->
  statement_ends_here rest = true ->
  exists g,
    match_here atrt_flags ctas
               ((kw ++ a ++ " (" ++ ws1 ++ lk ++ ws2 ++ b ++ ")") ++ rest)
               false
    = Some (String.length (kw ++ a ++ " (" ++ ws1 ++ lk ++ ws2 ++ b ++ ")"), g)
    /\ expand ctas_template
              ((kw ++ a ++ " (" ++ ws1 ++ lk ++ ws2 ++ b ++ ")") ++ rest) g
       = "create table " ++ a ++ " like " ++ b.
Proof.
  intros Hlen Hst Ha Hw1 Hlk Hlike Hw2 Hb Hr.
  unfold statement_ends_here in Hr. apply andb_true_iff in Hr as [Hend Hclose].
  apply negb_true_iff in Hclose.
  eexists. split.
  - unfold match_here, ctas. rewrite !append_assoc.
    rewrite (rmatch_lits_word atrt_flags "create table " _ kw _ _ _ _ Hlen Hst).
    cbn [rmatch]. apply greedy_prefix.
    { rewrite (all_chars_ext _ _ _ atom_ok_any). exact Ha. }
    set (tail := ws1 ++ lk ++ ws2 ++ b ++ ")" ++ rest).
    change (" (" ++ tail) with (String " " (String "(" tail)).
    cbn [greedy].
    change (atom_ok atrt_flags ADot " ") with true.
    change (atom_ok atrt_flags ADot "(") with true. cbv iota.
    rewrite greedy_needs_open;
      [ | intros v n Hv; rewrite rmatch_lits;
          change (ignorecase atrt_flags) with true; rewrite Hv; reflexivity
        | subst tail;
          apply on_line_absent;
          [exact (all_chars_imp _ _ _ space_not_open Hw1)|];
          apply on_line_absent;
          [exact (starts_with_lacks "(" "like" lk eq_refl Hlike Hlk)|];
          apply on_line_absent;
          [exact (all_chars_imp _ _ _ space_not_open Hw2)|];
          apply on_line_absent;
          [apply (all_chars_imp name_char); [|exact Hb];
           intros c Hc; unfold name_char in Hc;
           apply andb_true_iff in Hc as [_ Hc]; exact Hc|];
          change (on_line "(" (")" ++ rest)) with (on_line "(" rest);
          exact (line_end_on_line "(" rest Hend) ].
    rewrite !rmatch_lits. change (ignorecase atrt_flags) with true.
    change (starts_with true " (" (String "(" tail)) with false.
    change (starts_with true " (" (String " " (String "(" tail))) with true.
    cbv iota.
    change (drop (String.length " (") (String " " (String "(" tail)))
      with tail.
    subst tail. apply rmatch_star_run.
    { rewrite (all_chars_ext _ _ _ (atom_ok_space atrt_flags)). exact Hw1. }
    { exact (like_stops lk _ Hlike). }
    rewrite (rmatch_lits_word atrt_flags "like" _ lk _ _ _ _ Hlk Hlike).
    apply rmatch_star_run.
    { rewrite (all_chars_ext _ _ _ (atom_ok_space atrt_flags)). exact Hw2. }
    { exact (name_stops b rest Hb). }
    cbn [rmatch]. apply greedy_prefix.
    { rewrite (all_chars_ext _ _ _ atom_ok_any).
      apply (all_chars_imp name_char); [|exact Hb].
      intros c Hc. unfold name_char in Hc.
      apply andb_true_iff in Hc as [Hc _]. apply negb_true_iff in Hc.
      exact (newline_is_space c Hc). }
    change (")" ++ rest) with (String ")" rest). cbn [greedy].
    change (atom_ok atrt_flags ADot ")") with true. cbv iota.
    rewrite greedy_stop
      by (rewrite (stops_ext _ _ _ atom_ok_any); exact Hend).
    rewrite greedy_needs_close;
      [ | intros v n Hv; rewrite rmatch_lits;
          change (ignorecase atrt_flags) with true; rewrite Hv; reflexivity
        | exact Hclose ].
    change (atom_ok atrt_flags space_set ")") with false. cbv iota.
    rewrite rmatch_lits. change (ignorecase atrt_flags) with true.
    change (starts_with true ")" (String ")" rest)) with true. cbv iota.
    cbn [rmatch andb]. apply (f_equal Some).
    apply f_equal2; [|reflexivity].
    rewrite !length_append. simpl. lia.
  - unfold ctas_template. rewrite expand_tlits.
    cbn [expand mark_of Nat.eqb]. rewrite expand_tlits.
    cbn [expand mark_of Nat.eqb].
    rewrite (slice_at _ kw a (" (" ++ ws1 ++ lk ++ ws2 ++ b ++ ")" ++ rest));
      [ | rewrite !append_assoc; reflexivity | lia | lia ].
    rewrite (slice_at _ (kw ++ a ++ " (" ++ ws1 ++ lk ++ ws2) b (")" ++ rest));
      [ | rewrite !append_assoc; reflexivity
        | rewrite !length_append; simpl; lia | lia ].
    rewrite append_empty_r. reflexivity.
Qed.

End Ctas.

End ExtraFacts.

(** ** Properties of the rewriter *)

Import Chars Re Rewriter.

(** C1. Per-rule failure isolation.  Whatever the registry, when the loop
    reaches a rule [p] with a non-empty text [t] and [p] raises on [t], the
    driver logs the text and the exception and goes on with the rules after
    [p] on the same text [t]: what it returns, and what it logs afterwards,
    is what the remaining rules give on [t].  The driver returns a text for
    every text, so no rule's exception reaches the caller. *)
Theorem failure_isolation :
  (forall (ps : list rule) (sql : string),
      exists out, fst (translate_with ps (Some sql)) = Some out) /\
  (forall sql : string,
      exists out, fst (parse_redshift_to_snowflake (Some sql)) = Some out) /\
  (forall (ps1 : list rule) (p : rule) (ps2 : list rule) (sql t : string)
          (log1 : list log_record) (exc : exn),
      for_parsers ps1 sql = (Exhausted t, log1) ->
      falsy t = false ->
      run p t = Raise exc ->
      translate_with (ps1 ++ p :: ps2) (Some sql) =
      (fst (translate_with ps2 (Some t)),
       (log1 ++ [LogError t; LogException exc;
                 LogDebug ("Partial parsed sql: " ++ t)]
             ++ snd (translate_with ps2 (Some t)))%list)).
Proof.
  split; [exact DriverFacts.translate_with_total|].
  split; [exact (DriverFacts.translate_with_total parsers)|].
  intros ps1 p ps2 sql t log1 exc Hreach Ht Hraise.
  pose proof (DriverFacts.for_parsers_nonempty_start _ _ _ _ Hreach Ht) as Hs.
  unfold translate_with. rewrite Hs, Ht.
  rewrite DriverFacts.for_parsers_app, Hreach. simpl.
  rewrite Ht, Hraise.
  destruct (for_parsers ps2 t) as [[out|out] log2]; cbn [fst snd];
    rewrite <- ?app_assoc; reflexivity.
Qed.

Lemma failure_isolation_witness :
  translate_with ([regex_rule "parse_int" int_steps] ++ broken_rule
                    :: [Rule "parse_trailing_whitespace"
                             parse_trailing_whitespace []])
                 (Some ("create table t (a bigint) " ++ nl ++ nl ++ "  ")) =
  (Some "create table t (a int)",
   [LogDebug ("Partial parsed sql: create table t (a int) " ++ nl ++ nl ++ "  ");
    LogError ("create table t (a int) " ++ nl ++ nl ++ "  ");
    LogException "re.error: unbalanced parenthesis";
    LogDebug ("Partial parsed sql: create table t (a int) " ++ nl ++ nl ++ "  ");
    LogDebug "Partial parsed sql: create table t (a int)";
    LogInfo "Parsed snowflake sql: create table t (a int)"]).
Proof.
  rewrite (proj2 (proj2 failure_isolation)
             [regex_rule "parse_int" int_steps] broken_rule
             [Rule "parse_trailing_whitespace" parse_trailing_whitespace []]
             ("create table t (a bigint) " ++ nl ++ nl ++ "  ")
             ("create table t (a int) " ++ nl ++ nl ++ "  ")
             [LogDebug ("Partial parsed sql: create table t (a int) "
                          ++ nl ++ nl ++ "  ")]
             "re.error: unbalanced parenthesis").
  - vm_compute. reflexivity.
  - vm_compute. reflexivity.
  - reflexivity.
  - reflexivity.
Defined.

(** C2. Empty text is terminal.  For [None] and for the empty string the
    driver returns its argument and logs nothing, whatever the registry: no
    rule runs, since every call of a rule is followed by a debug record.
    When a rule [p], reached with a non-empty text, returns the empty
    string, the driver returns the empty string; the only records after
    [p]'s debug record is the closing info record when [p] was the last
    rule, so none of the rules after [p] runs. *)
Theorem empty_text_terminal :
  (forall ps : list rule, translate_with ps None = (None, [])) /\
  (forall ps : list rule, translate_with ps (Some "") = (Some "", [])) /\
  parse_redshift_to_snowflake None = (None, []) /\
  parse_redshift_to_snowflake (Some "") = (Some "", []) /\
  (forall (ps1 : list rule) (p : rule) (ps2 : list rule) (sql t : string)
          (log1 : list log_record),
      for_parsers ps1 sql = (Exhausted t, log1) ->
      falsy t = false ->
      run p t = Ok "" ->
      translate_with (ps1 ++ p :: ps2) (Some sql) =
      (Some "",
       (log1 ++ LogDebug "Partial parsed sql: "
             :: match ps2 with
                | [] => [LogInfo "Parsed snowflake sql: "]
                | _ :: _ => []
                end)%list)).
Proof.
  repeat split.
  intros ps1 p ps2 sql t log1 Hreach Ht Hrun.
  pose proof (DriverFacts.for_parsers_nonempty_start _ _ _ _ Hreach Ht) as Hs.
  unfold translate_with. rewrite Hs.
  rewrite DriverFacts.for_parsers_app, Hreach. simpl.
  rewrite Ht, Hrun, DriverFacts.for_parsers_empty.
  destruct ps2; cbn [fst snd]; rewrite <- ?app_assoc; reflexivity.
Qed.

Lemma empty_text_terminal_witness :
  parse_redshift_to_snowflake (Some "analyze orders;") =
  (Some "",
   [LogDebug "Partial parsed sql: analyze orders;";
    LogDebug "Partial parsed sql: analyze orders;";
    LogDebug "Partial parsed sql: analyze orders;";
    LogDebug "Partial parsed sql: analyze orders;";
    LogDebug "Partial parsed sql: analyze orders;";
    LogDebug "Partial parsed sql: analyze orders;";
    LogDebug "Partial parsed sql: analyze orders;";
    LogDebug "Partial parsed sql: analyze orders;";
    LogDebug "Partial parsed sql: "]).
Proof.
  change (parse_redshift_to_snowflake (Some "analyze orders;"))
    with (translate_with
            (firstn 8 parsers ++ regex_rule "parse_analyze" analyze_steps
                    :: skipn 9 parsers)
            (Some "analyze orders;")).
  rewrite (proj2 (proj2 (proj2 (proj2 empty_text_terminal)))
             (firstn 8 parsers) (regex_rule "parse_analyze" analyze_steps)
             (skipn 9 parsers) "analyze orders;" "analyze orders;"
             (repeat (LogDebug "Partial parsed sql: analyze orders;") 8)).
  - reflexivity.
  - vm_compute. reflexivity.
  - reflexivity.
  - vm_compute. reflexivity.
Defined.

(** C3, as stated, fails: [parse_swap_methods] is a rule of the registry,
    it turns [ISNULL(] into [NVL(], and applied again it turns that [NVL]
    into [COALESCE]. *)
Lemma idempotence_counterexample :
  In (regex_rule "parse_swap_methods" swap_steps) parsers /\
  parse_swap_methods "select ISNULL(x, 0) from t" = Ok "select NVL(x, 0) from t" /\
  parse_swap_methods "select NVL(x, 0) from t" = Ok "select COALESCE(x, 0) from t" /\
  ~ (forall (p : rule) (sql once twice : string),
        In p parsers -> run p sql = Ok once -> run p once = Ok twice ->
        twice = once).
Proof.
  assert (Hin : In (regex_rule "parse_swap_methods" swap_steps) parsers).
  { unfold parsers. cbn [In]. auto 10. }
  assert (H1 : parse_swap_methods "select ISNULL(x, 0) from t"
               = Ok "select NVL(x, 0) from t") by (vm_compute; reflexivity).
  assert (H2 : parse_swap_methods "select NVL(x, 0) from t"
               = Ok "select COALESCE(x, 0) from t") by (vm_compute; reflexivity).
  repeat split; try assumption.
  intros H. specialize (H _ _ _ _ Hin H1 H2). discriminate.
Qed.

(** C3, amended.  For every rule of the registry and every text: when none
    of the rule's patterns matches anywhere in what the rule returned, a
    second application returns that text again.  The trailing-whitespace
    rule, which has no pattern, is idempotent on every text.  Without the
    condition a second application can change the text:
    [parse_swap_methods] rewrites [NVL] before it rewrites [ISNULL(] to
    [NVL(], so the [NVL(] it produces is rewritten by the next
    application. *)
Theorem idempotent_when_quiet :
  (forall (p : rule) (sql once : string),
      In p parsers -> run p sql = Ok once -> quiet p once = true ->
      run p once = Ok once) /\
  (forall sql : string,
      exists once, parse_trailing_whitespace sql = Ok once
                   /\ parse_trailing_whitespace once = Ok once) /\
  parse_swap_methods "ISNULL(x)" = Ok "NVL(x)" /\
  parse_swap_methods "NVL(x)" = Ok "COALESCE(x)".
Proof.
  split; [|split; [|split; vm_compute; reflexivity]].
  - intros p sql once Hin Hrun Hq.
    destruct (RuleFacts.registry_shape p Hin) as [->|(nm & steps & ->)].
    + cbn [run] in *. unfold parse_trailing_whitespace in *.
      injection Hrun as <-. rewrite RuleFacts.trailing_whitespace_twice.
      reflexivity.
    + cbn [run regex_rule] in *.
      exact (RuleFacts.subs_quiet steps sql once once Hrun Hq).
  - intros sql. eexists. split; [reflexivity|].
    unfold parse_trailing_whitespace.
    rewrite RuleFacts.trailing_whitespace_twice. reflexivity.
Qed.

Lemma idempotent_when_quiet_witness :
  run (regex_rule "parse_swap_methods" swap_steps) "select BOOLOR_AGG(x) from t"
  = Ok "select BOOLOR_AGG(x) from t".
Proof.
  apply (proj1 idempotent_when_quiet
               (regex_rule "parse_swap_methods" swap_steps)
               "select bool_or(x) from t").
  - simpl. do 6 right. left. reflexivity.
  - vm_compute. reflexivity.
  - vm_compute. reflexivity.
Defined.

(** C4, as stated, fails: [parse_analyze] runs after the trailing-whitespace
    rule, and deleting a closing [analyze] statement leaves the line break
    before it at the end of the result. *)
Lemma trailing_whitespace_counterexample :
  translated ("select 1;" ++ nl ++ "analyze t;") = Some ("select 1;" ++ nl) /\
  ends_in_space ("select 1;" ++ nl) = true /\
  ~ (forall sql out : string, translated sql = Some out -> ends_in_space out = false).
Proof.
  assert (H : translated ("select 1;" ++ nl ++ "analyze t;")
              = Some ("select 1;" ++ nl)) by (vm_compute; reflexivity).
  split; [exact H|]. split; [vm_compute; reflexivity|].
  intros Hall. specialize (Hall _ _ H). discriminate.
Qed.

(** C4, amended.  The trailing-whitespace rule is the sixth of the sixteen
    rules.  What it returns never ends in whitespace, so the text the loop
    holds once the first six rules have run never does.  The ten rules
    after it are not followed by another clean-up: when [parse_analyze]
    deletes a closing statement, the line break before it ends the
    result. *)
Theorem trailing_whitespace_rule_clean :
  nth_error parsers 5
  = Some (Rule "parse_trailing_whitespace" parse_trailing_whitespace []) /\
  List.length parsers = 16 /\
  (forall sql : string,
      exists out, parse_trailing_whitespace sql = Ok out
                  /\ ends_in_space out = false) /\
  (forall (sql t : string),
      fst (for_parsers (firstn 6 parsers) sql) = Exhausted t ->
      ends_in_space t = false) /\
  translated ("select 1;" ++ nl ++ "analyze orders;") = Some ("select 1;" ++ nl).
Proof.
  split; [reflexivity|]. split; [reflexivity|].
  split; [|split; [|vm_compute; reflexivity]].
  - intros sql. eexists. split; [reflexivity|]. apply RuleFacts.rstrip_clean.
  - intros sql t.
    change (firstn 6 parsers)
      with (firstn 5 parsers
              ++ [Rule "parse_trailing_whitespace" parse_trailing_whitespace []])%list.
    rewrite DriverFacts.for_parsers_app.
    destruct (for_parsers (firstn 5 parsers) sql) as [[out|mid] log1];
      cbn [fst]; [discriminate|].
    cbn [for_parsers run]. destruct (falsy mid); cbn [fst]; [discriminate|].
    unfold parse_trailing_whitespace. cbn [fst]. intros H. injection H as <-.
    apply RuleFacts.rstrip_clean.
Qed.

Lemma trailing_whitespace_rule_clean_witness :
  ends_in_space "select 1" = false.
Proof.
  apply (proj1 (proj2 (proj2 (proj2 trailing_whitespace_rule_clean)))
               ("select 1  " ++ nl ++ nl)).
  vm_compute. reflexivity.
Defined.

(** C5: the code at inputs where removing a storage hint takes more than the
    hint.  The example of the claim comes out with its parentheses balanced;
    a [distkey] column attribute followed by another column, on one line or
    on several, and an [encode] hint followed by the closing parenthesis on
    the same line lose the closing parenthesis; an [encode] hint followed
    by a comma loses the next column when a later comma stands on the
    line. *)
Theorem storage_hint_removal_overreach :
  translated "create table foo (a int) diststyle even distkey(a);"
  = Some "create table foo (a int) ;" /\
  occurs true "diststyle" "create table foo (a int) ;" = false /\
  occurs true "distkey" "create table foo (a int) ;" = false /\
  balanced "create table foo (a int) ;" = true /\
  translated "create table t (a int distkey, b int)"
  = Some "create table t (a int" /\
  balanced "create table t (a int" = false /\
  translated ("create table t (" ++ nl ++ "  a int distkey," ++ nl ++ "  b int"
                ++ nl ++ ")" ++ nl ++ "sortkey(a);")
  = Some ("create table t (" ++ nl ++ "  a int ;") /\
  translated "create table t (a int encode lzo)"
  = Some "create table t (a int" /\
  translated "create table t (a int encode lzo, b int encode zstd, c int)"
  = Some "create table t (a int, c int)".
Proof. repeat split; vm_compute; reflexivity. Qed.

(** C6, as stated, fails: the slot-count statement is not commented out but
    removed; nothing of it, and no comment marker, is left in the result. *)
Lemma slot_count_counterexample :
  translated ("select 1;" ++ nl ++ "set wlm_query_slot_count to 5;" ++ nl
                          ++ "select 2;")
  = Some ("select 1;" ++ nl ++ nl ++ "select 2;") /\
  occurs true "wlm_query_slot_count" ("select 1;" ++ nl ++ nl ++ "select 2;")
  = false /\
  occurs false "--" ("select 1;" ++ nl ++ nl ++ "select 2;") = false /\
  occurs false "/*" ("select 1;" ++ nl ++ nl ++ "select 2;") = false.
Proof. repeat split; vm_compute; reflexivity. Qed.

(** C6, amended.  [parse_wlm_query_slot_count] deletes the statements
    [set wlm_query_slot_count to N;]: a text that starts with one is
    rewritten as its remainder is.  A deletion never spans a line break, so
    the rule returns a text with as many line breaks as it got.
    [parse_search_path] turns [set search_path to ] into [use schema ]. *)
Theorem slot_count_deleted_search_path_translated :
  (forall (count rest : string),
      is_number count = true ->
      parse_wlm_query_slot_count
        ("set wlm_query_slot_count to " ++ count ++ ";" ++ rest)
      = parse_wlm_query_slot_count rest) /\
  (forall sql : string,
      exists out, parse_wlm_query_slot_count sql = Ok out
                  /\ count_newlines out = count_newlines sql) /\
  (forall rest : string,
      parse_search_path ("set search_path to " ++ rest)
      = (out <- parse_search_path rest ;; Ok ("use schema " ++ out))) /\
  translated "set search_path to analytics" = Some "use schema analytics" /\
  translated ("select 1;" ++ nl ++ "set wlm_query_slot_count to 5;" ++ nl
                          ++ "select 2;")
  = Some ("select 1;" ++ nl ++ nl ++ "select 2;").
Proof.
  split; [|split; [|split; [|split; vm_compute; reflexivity]]].
  - intros count rest Hc. rewrite !RuleFacts.parse_wlm_query_slot_count_scan.
    f_equal.
    rewrite <- (ReFacts.wlm_query_slot_count_scan count rest Hc).
    rewrite !TextFacts.append_assoc. reflexivity.
  - intros sql. rewrite RuleFacts.parse_wlm_query_slot_count_scan.
    eexists. split; [reflexivity|].
    rewrite (ReFacts.sub_scan_delete_keeps_lines
               _ _ ReFacts.wlm_query_slot_count_single_line sql 0) by lia.
    destruct sql; reflexivity.
  - intros rest. rewrite !RuleFacts.parse_search_path_scan. cbn [bind].
    apply (f_equal Ok).
    rewrite (ReFacts.lits_scan IGNORECASE "set search_path to " _
               "set search_path to " rest);
      [| discriminate | reflexivity | reflexivity].
    rewrite ReFacts.expand_tlits. reflexivity.
Qed.

Lemma slot_count_deleted_search_path_translated_witness :
  parse_wlm_query_slot_count
    ("set wlm_query_slot_count to " ++ "12" ++ ";" ++ " select 1;")
  = parse_wlm_query_slot_count " select 1;".
Proof.
  apply (proj1 slot_count_deleted_search_path_translated "12" " select 1;").
  reflexivity.
Defined.

(** C7, as stated, fails for the pipeline: [parse_swap_methods] runs before
    [parse_atrt] and rewrites a schema named [nvl]. *)
Lemma rename_counterexample :
  is_identifier "nvl" = true /\ is_identifier "t" = true /\
  is_identifier "x" = true /\
  translated (rename_stmt "nvl" "t" "x")
  = Some "alter table COALESCE.t rename to COALESCE.x" /\
  translated (rename_stmt "nvl" "t" "x") <> Some (renamed_stmt "nvl" "t" "x").
Proof.
  assert (H : translated (rename_stmt "nvl" "t" "x")
              = Some "alter table COALESCE.t rename to COALESCE.x")
    by (vm_compute; reflexivity).
  split; [reflexivity|]. split; [reflexivity|]. split; [reflexivity|].
  split; [exact H|]. rewrite H. discriminate.
Qed.

(** C7, amended.  [parse_atrt] qualifies the rename target with the schema
    of the renamed table for every statement
    [alter table <schema>.<table> rename to <newname>] made of identifiers.
    The pipeline returns the same whenever its other rules leave the
    statement and its translation as they are, as they do for
    [alter table myschema.mytable rename to newname]. *)
Theorem rename_target_qualified :
  (forall (schema table newname : string),
      is_identifier schema = true -> is_identifier table = true ->
      is_identifier newname = true ->
      parse_atrt (rename_stmt schema table newname)
      = Ok (renamed_stmt schema table newname)) /\
  (forall (schema table newname : string),
      is_identifier schema = true -> is_identifier table = true ->
      is_identifier newname = true ->
      unchanged_by (firstn 10 parsers) (rename_stmt schema table newname) = true ->
      unchanged_by (skipn 11 parsers) (renamed_stmt schema table newname) = true ->
      translated (rename_stmt schema table newname)
      = Some (renamed_stmt schema table newname)) /\
  translated "alter table myschema.mytable rename to newname"
  = Some "alter table myschema.mytable rename to myschema.newname".
Proof.
  assert (Hrule : forall schema table newname,
             is_identifier schema = true -> is_identifier table = true ->
             is_identifier newname = true ->
             parse_atrt (rename_stmt schema table newname)
             = Ok (renamed_stmt schema table newname)).
  { intros schema table newname Hs Ht Hn.
    rewrite <- (TextFacts.append_empty_r (rename_stmt schema table newname)).
    rewrite (RuleFacts.parse_atrt_statement _ _ _ "" Hs Ht Hn eq_refl).
    change (parse_atrt "") with (@Ok string ""). cbn [bind].
    rewrite TextFacts.append_empty_r. reflexivity. }
  split; [exact Hrule|]. split; [|vm_compute; reflexivity].
  intros schema table newname Hs Ht Hn H1 H2.
  unfold translated, parse_redshift_to_snowflake.
  change parsers
    with (firstn 10 parsers ++ regex_rule "parse_atrt" atrt_steps
                 :: skipn 11 parsers)%list.
  apply RuleFacts.translate_through; try assumption; try reflexivity.
  exact (Hrule schema table newname Hs Ht Hn).
Qed.

Lemma rename_target_qualified_witness :
  translated (rename_stmt "myschema" "mytable" "newname")
  = Some (renamed_stmt "myschema" "mytable" "newname").
Proof.
  apply (proj1 (proj2 rename_target_qualified) "myschema" "mytable" "newname").
  - reflexivity.
  - reflexivity.
  - reflexivity.
  - vm_compute. reflexivity.
  - vm_compute. reflexivity.
Defined.

(** C8: the code at inputs where [bool] stays.  A [bool] column followed by
    a comma or a line break and a cast followed by a space are rewritten; a
    [bool] column followed by the closing parenthesis and a cast followed
    by a comma or by the end of the text are left as they are. *)
Theorem bool_normalization_misses :
  translated "create table t (a bool, b int)"
  = Some "create table t (a boolean, b int)" /\
  translated "select a::bool from t" = Some "select a:: boolean from t" /\
  translated ("create table t (a bool" ++ nl ++ ")")
  = Some ("create table t (a boolean" ++ nl ++ ")") /\
  translated "create table t (a bool)" = Some "create table t (a bool)" /\
  translated "select a::bool, b from t" = Some "select a::bool, b from t" /\
  translated "select coalesce(a::bool, false)"
  = Some "select coalesce(a::bool, false)" /\
  translated "select a::bool" = Some "select a::bool".
Proof. repeat split; vm_compute; reflexivity. Qed.

(** C9. Order dependence: there is a text on which storage-hint removal
    followed by trailing-whitespace clean-up differs from the two rules
    applied the other way round. *)
Theorem order_dependence :
  exists sql one other : string,
    (out <- parse_dist_sort sql ;; parse_trailing_whitespace out) = Ok one /\
    (out <- parse_trailing_whitespace sql ;; parse_dist_sort out) = Ok other /\
    one <> other.
Proof.
  exists "create table t (a int) distkey(a)",
         "create table t (a int)", "create table t (a int) ".
  repeat split; try (vm_compute; reflexivity). discriminate.
Qed.

(** C10. The greedy [distkey] span.  The second [re.sub] of
    [parse_dist_sort] is [distkey.*\)] with [re.DOTALL].  On every text in
    which [distkey] occurs (in any letter case) with a closing parenthesis
    somewhere after it, that call deletes everything from the first
    [distkey] through the last closing parenthesis of the text, and nothing
    else.  So a [distkey] column attribute takes the columns after it and
    the closing parenthesis of the table with it. *)
Theorem distkey_greedy_span :
  nth_error dist_sort_steps 1
  = Some ("distkey.*\)", "", IGNORECASE +f MULTILINE +f DOTALL) /\
  (forall (sql : string) (i j : nat),
      index_of true "distkey" sql = Some i ->
      rindex ")" sql = Some j ->
      i + 7 <= j ->
      re_sub "distkey.*\)" "" sql (IGNORECASE +f MULTILINE +f DOTALL)
      = Ok (take i sql ++ drop (S j) sql)) /\
  (forall (sql mid : string) (i j : nat),
      re_sub "[\s]diststyle (all|even|auto|key)" "" sql IGNORECASE = Ok mid ->
      index_of true "distkey" mid = Some i ->
      rindex ")" mid = Some j ->
      i + 7 <= j ->
      parse_dist_sort sql
      = subs (skipn 2 dist_sort_steps) (take i mid ++ drop (S j) mid)) /\
  parse_dist_sort "create table t (a int distkey, b int)"
  = Ok "create table t (a int " /\
  parse_dist_sort ("create table t (a int DISTKEY," ++ nl ++ " b int," ++ nl
                     ++ " c int);")
  = Ok "create table t (a int ;".
Proof.
  assert (Hspan : forall (sql : string) (i j : nat),
             index_of true "distkey" sql = Some i ->
             rindex ")" sql = Some j ->
             i + 7 <= j ->
             re_sub "distkey.*\)" "" sql (IGNORECASE +f MULTILINE +f DOTALL)
             = Ok (take i sql ++ drop (S j) sql)).
  { intros sql i j Hi Hj Hle.
    rewrite (ReFacts.re_sub_compiled _ "" _ _ _ [] _
               ReFacts.compile_distkey_span eq_refl).
    f_equal. exact (ReFacts.distkey_span_scan sql i j Hi Hj Hle). }
  split; [reflexivity|]. split; [exact Hspan|].
  split; [|split; vm_compute; reflexivity].
  intros sql mid i j Hfirst Hi Hj Hle.
  unfold parse_dist_sort, dist_sort_steps. cbn [subs skipn].
  rewrite Hfirst. cbn [bind].
  rewrite (Hspan mid i j Hi Hj Hle). reflexivity.
Qed.

Lemma distkey_greedy_span_witness :
  re_sub "distkey.*\)" "" "create table t (a int distkey, b int) ;"
         (IGNORECASE +f MULTILINE +f DOTALL)
  = Ok (take 22 "create table t (a int distkey, b int) ;"
          ++ drop 37 "create table t (a int distkey, b int) ;").
Proof.
  apply (proj1 (proj2 distkey_greedy_span)
               "create table t (a int distkey, b int) ;" 22 36).
  - vm_compute. reflexivity.
  - vm_compute. reflexivity.
  - simpl. lia.
Defined.

(** ** Further properties of the module *)

(** X1. Every pattern and every replacement of the sixteen rules compiles,
    so no rule raises on a text, and the driver never takes its [except]
    branch on a text: its log holds no error and no exception record. *)
Theorem registry_raises_nothing :
  (forall (p : rule) (sql : string),
      In p parsers -> exists out, run p sql = Ok out) /\
  (forall sql : string,
      existsb is_error_record (snd (parse_redshift_to_snowflake (Some sql)))
      = false).
Proof.
  split; [exact RuleFacts.registry_never_raises|].
  intros sql. unfold parse_redshift_to_snowflake, translate_with.
  destruct (falsy sql); [reflexivity|].
  pose proof (ExtraFacts.for_parsers_no_error parsers
                RuleFacts.registry_never_raises sql) as H.
  destruct (for_parsers parsers sql) as [[out|out] log]; cbn [snd] in *;
    [exact H|].
  rewrite ExtraFacts.existsb_last, H. reflexivity.
Qed.

Lemma registry_raises_nothing_witness :
  exists out, run (regex_rule "parse_swap_methods" swap_steps)
                  "select date_add('day', 1, d)" = Ok out.
Proof.
  apply (proj1 registry_raises_nothing).
  simpl. do 6 right. left. reflexivity.
Defined.

(** X2. The driver over a registry made of two parts returns what the
    driver over the second part returns on the text the driver over the
    first part returned (for [None], for the empty text and for an early
    return as well). *)
Theorem driver_composes :
  forall (ps1 ps2 : list rule) (sql : option string),
    fst (translate_with (ps1 ++ ps2) sql)
    = fst (translate_with ps2 (fst (translate_with ps1 sql))).
Proof. exact ExtraFacts.translate_with_app. Qed.

(** X3. A non-empty text that does not end in whitespace and in which no
    pattern of any rule matches is returned as it is. *)
Theorem untouched_text_is_returned :
  forall sql : string,
    falsy sql = false -> ends_in_space sql = false ->
    forallb (fun p => quiet p sql) parsers = true ->
    translated sql = Some sql.
Proof.
  intros sql Hs Hclean Hq.
  assert (Hun : unchanged_by parsers sql = true).
  { unfold unchanged_by. rewrite forallb_forall in *. intros p Hin.
    rewrite (ExtraFacts.quiet_rule_unchanged p sql Hin Hclean (Hq p Hin)).
    apply String.eqb_refl. }
  pose proof (RuleFacts.for_parsers_unchanged parsers sql Hs Hun) as H.
  unfold translated, parse_redshift_to_snowflake, translate_with.
  rewrite Hs. destruct (for_parsers parsers sql) as [e log].
  cbn [fst] in H. subst e. reflexivity.
Qed.

Lemma untouched_text_is_returned_witness :
  translated "select a, b from s.t where a > 1" =
  Some "select a, b from s.t where a > 1".
Proof.
  apply untouched_text_is_returned; vm_compute; reflexivity.
Defined.

(** X4. [parse_trailing_whitespace] returns a prefix of its argument that
    does not end in whitespace, and all it cuts off is whitespace; the
    first of its two strips changes nothing in the result, which is
    what [rstrip()] alone returns. *)
Theorem trailing_whitespace_cuts_whitespace_only :
  forall sql : string,
  exists out suffix,
    parse_trailing_whitespace sql = Ok out /\
    sql = out ++ suffix /\
    all_chars is_space suffix = true /\
    ends_in_space out = false /\
    out = rstrip is_space sql.
Proof.
  intros sql.
  destruct (ExtraFacts.rstrip_split is_space sql) as (suffix & Hs & Hall).
  exists (rstrip is_space sql), suffix.
  unfold parse_trailing_whitespace.
  rewrite ExtraFacts.trailing_whitespace_one_strip.
  repeat split; try assumption. apply RuleFacts.rstrip_clean.
Qed.

(** X5. Every pattern of the fifteen [re.sub] rules needs a character that
    is not whitespace, so these rules return a text made of whitespace as it
    is; the driver translates such a text to the empty text, which the
    trailing-whitespace rule produces and the loop then returns. *)
Theorem blank_text_becomes_empty :
  (forall (p : rule) (sql : string),
      In p parsers ->
      String.eqb (name p) "parse_trailing_whitespace" = false ->
      all_chars is_space sql = true ->
      run p sql = Ok sql) /\
  (forall sql : string,
      falsy sql = false -> all_chars is_space sql = true ->
      translated sql = Some "").
Proof.
  assert (Hrules : forall p sql,
             In p parsers ->
             String.eqb (name p) "parse_trailing_whitespace" = false ->
             all_chars is_space sql = true -> run p sql = Ok sql).
  { intros p sql Hin Hnm Hs.
    unfold parsers in Hin. cbn [In] in Hin.
    repeat (destruct Hin as [<-|Hin];
            [first [ discriminate Hnm
                   | cbn [run regex_rule];
                     apply ExtraFacts.subs_needs_text;
                     [vm_compute; reflexivity | exact Hs] ]|]).
    contradiction. }
  split; [exact Hrules|].
  intros sql Hs Hall.
  unfold translated, parse_redshift_to_snowflake.
  change parsers
    with (firstn 5 parsers
            ++ (Rule "parse_trailing_whitespace" parse_trailing_whitespace []
                  :: skipn 6 parsers))%list.
  rewrite ExtraFacts.translate_with_app.
  assert (H5 : fst (translate_with (firstn 5 parsers) (Some sql)) = Some sql).
  { assert (Hun : unchanged_by (firstn 5 parsers) sql = true).
    { unfold unchanged_by. rewrite forallb_forall. intros p Hin.
      unfold parsers in Hin. cbn [firstn In] in Hin.
      repeat (destruct Hin as [<-|Hin];
              [rewrite Hrules;
               [apply String.eqb_refl | unfold parsers; cbn [In]; auto 20
               | reflexivity | exact Hall]|]).
      contradiction. }
    pose proof (RuleFacts.for_parsers_unchanged _ sql Hs Hun) as H.
    unfold translate_with. rewrite Hs.
    destruct (for_parsers (firstn 5 parsers) sql) as [e log].
    cbn [fst] in H. subst e. reflexivity. }
  rewrite H5. unfold translate_with. rewrite Hs. cbn [for_parsers run].
  rewrite Hs. unfold parse_trailing_whitespace.
  rewrite ExtraFacts.trailing_whitespace_one_strip.
  rewrite (ExtraFacts.rstrip_all is_space sql Hall).
  rewrite DriverFacts.for_parsers_empty. reflexivity.
Qed.

Lemma blank_text_becomes_empty_witness :
  translated ("  " ++ nl ++ " ") = Some "".
Proof.
  apply (proj2 blank_text_becomes_empty); reflexivity.
Defined.

(** X6. Ten rules never add or remove a line break: no match of their
    patterns spans a line break and their replacements write none, so what
    they return has as many line breaks as what they get. *)
Theorem single_line_rules_keep_line_breaks :
  forall (f : string -> result string) (sql : string),
    In f [parse_int; parse_varchar; parse_swap_methods; parse_search_path;
          parse_atrt; parse_tmp; parse_wlm_query_slot_count;
          parse_convert_timezone_utc; parse_convert_timezone_pacific;
          parse_convert_date_trunc_weeks] ->
    exists out, f sql = Ok out /\ count_newlines out = count_newlines sql.
Proof.
  intros f sql Hin. cbn [In] in Hin.
  repeat (destruct Hin as [<-|Hin];
          [apply ExtraFacts.subs_keeps_lines; vm_compute; reflexivity|]).
  contradiction.
Qed.

Lemma single_line_rules_keep_line_breaks_witness :
  exists out,
    parse_atrt ("alter table s.a rename to b;" ++ nl
                  ++ "alter table s.c rename to d;") = Ok out
    /\ count_newlines out
       = count_newlines ("alter table s.a rename to b;" ++ nl
                           ++ "alter table s.c rename to d;").
Proof.
  apply single_line_rules_keep_line_breaks.
  simpl. do 4 right. left. reflexivity.
Defined.

(** X7. [parse_analyze] deletes from the keyword through the next
    semicolon: a text that starts with [analyze ] (in any letter case),
    goes on with word characters, dots and whitespace only (line breaks
    and further words included) and then has a semicolon is rewritten as
    what follows that semicolon is. *)
Theorem analyze_deleted_through_semicolon :
  forall (kw body rest : string),
    String.length kw = 8 -> starts_with true "analyze " kw = true ->
    all_chars Compiled.is_analyze_char body = true ->
    parse_analyze (kw ++ body ++ ";" ++ rest) = parse_analyze rest.
Proof.
  intros kw body rest Hlen Hst Hb.
  unfold parse_analyze, analyze_steps. cbn [subs].
  rewrite !(ReFacts.re_sub_compiled _ "" _ _ _ [] _
              ExtraFacts.compile_analyze eq_refl).
  cbn [bind]. f_equal.
  replace (kw ++ body ++ ";" ++ rest) with ((kw ++ body ++ ";") ++ rest)
    by (rewrite !TextFacts.append_assoc; reflexivity).
  assert (Hne : kw ++ body ++ ";" <> "")
    by (destruct kw; [discriminate Hlen | discriminate]).
  rewrite (ReFacts.sub_scan_hit_prefix _ _ _ _ _ [] Hne
             (ExtraFacts.analyze_here kw body rest Hlen Hst Hb)).
  reflexivity.
Qed.

Lemma analyze_deleted_through_semicolon_witness :
  parse_analyze ("ANALYZE " ++ ("orders" ++ nl ++ "select a from t")
                            ++ ";" ++ " select 2;")
  = parse_analyze " select 2;".
Proof.
  apply analyze_deleted_through_semicolon; reflexivity.
Defined.

(** X8. [parse_analyze] needs the semicolon: a text without any semicolon
    is returned as it is, whatever [analyze] statements it holds. *)
Theorem analyze_needs_semicolon :
  forall sql : string,
    rindex ";" sql = None -> parse_analyze sql = Ok sql.
Proof.
  intros sql Hs. unfold parse_analyze, analyze_steps. cbn [subs].
  rewrite (ReFacts.re_sub_compiled _ "" _ _ _ [] _
             ExtraFacts.compile_analyze eq_refl).
  cbn [bind].
  rewrite (ReFacts.sub_scan_quiet _ _ _ _
             (ExtraFacts.analyze_scan_needs_semicolon sql Hs)).
  reflexivity.
Qed.

Lemma analyze_needs_semicolon_witness :
  parse_analyze "analyze orders" = Ok "analyze orders".
Proof. apply analyze_needs_semicolon. reflexivity. Defined.

(** X9. [parse_varchar] drops the length of a bounded [varchar]: a text
    that starts with [ varchar(] (in any letter case), a run of digits and
    [)] is rewritten to [ VARCHAR] followed by the rewriting of the
    rest. *)
Theorem varchar_length_dropped :
  forall (kw size rest : string),
    String.length kw = 9 -> starts_with true " varchar(" kw = true ->
    is_number size = true ->
    parse_varchar (kw ++ size ++ ")" ++ rest)
    = (out <- parse_varchar rest ;; Ok (" VARCHAR" ++ out)).
Proof.
  intros kw size rest Hlen Hst Hn.
  unfold parse_varchar, varchar_steps. cbn [subs].
  rewrite !(ReFacts.re_sub_compiled _ " VARCHAR" _ _ _
              (Compiled.tlits " VARCHAR" []) _
              ExtraFacts.compile_varchar eq_refl).
  cbn [bind]. f_equal.
  replace (kw ++ size ++ ")" ++ rest) with ((kw ++ size ++ ")") ++ rest)
    by (rewrite !TextFacts.append_assoc; reflexivity).
  assert (Hne : kw ++ size ++ ")" <> "")
    by (destruct kw; [discriminate Hlen | discriminate]).
  rewrite (ReFacts.sub_scan_hit_prefix _ _ _ _ _ [] Hne
             (ExtraFacts.varchar_here kw size rest Hlen Hst Hn)).
  rewrite ReFacts.expand_tlits. reflexivity.
Qed.

Lemma varchar_length_dropped_witness :
  parse_varchar (" VarChar(" ++ "255" ++ ")" ++ ", b int")
  = (out <- parse_varchar ", b int" ;; Ok (" VARCHAR" ++ out)).
Proof.
  apply varchar_length_dropped; reflexivity.
Defined.

(** X10. The keyword rules match in any letter case and write their
    replacement in the spelling of the source: a text that starts with
    [set search_path to ], with [convert_timezone('utc'] or with
    [date_trunc('weeks'], in any letter case, is rewritten to
    [use schema ], [convert_timezone('UTC'] or [date_trunc('week']
    followed by the rewriting of the rest. *)
Theorem keyword_rules_ignore_case :
  forall (kw rest : string),
    (String.length kw = 19 ->
     starts_with true "set search_path to " kw = true ->
     parse_search_path (kw ++ rest)
     = (out <- parse_search_path rest ;; Ok ("use schema " ++ out))) /\
    (String.length kw = 22 ->
     starts_with true "convert_timezone('utc'" kw = true ->
     parse_convert_timezone_utc (kw ++ rest)
     = (out <- parse_convert_timezone_utc rest ;;
        Ok ("convert_timezone('UTC'" ++ out))) /\
    (String.length kw = 18 ->
     starts_with true "date_trunc('weeks'" kw = true ->
     parse_convert_date_trunc_weeks (kw ++ rest)
     = (out <- parse_convert_date_trunc_weeks rest ;;
        Ok ("date_trunc('week'" ++ out))).
Proof.
  intros kw rest. repeat split; intros Hlen Hst.
  - apply (ExtraFacts.literal_step_head _ _ IGNORECASE "set search_path to ");
      [vm_compute; reflexivity | vm_compute; reflexivity
       | destruct kw; [discriminate Hlen | discriminate]
       | exact Hlen | exact Hst].
  - apply (ExtraFacts.literal_step_head _ _ (IGNORECASE +f MULTILINE)
             "convert_timezone('utc'");
      [vm_compute; reflexivity | vm_compute; reflexivity
       | destruct kw; [discriminate Hlen | discriminate]
       | exact Hlen | exact Hst].
  - apply (ExtraFacts.literal_step_head _ _ (IGNORECASE +f MULTILINE)
             "date_trunc('weeks'");
      [vm_compute; reflexivity | vm_compute; reflexivity
       | destruct kw; [discriminate Hlen | discriminate]
       | exact Hlen | exact Hst].
Qed.

Lemma keyword_rules_ignore_case_witness :
  parse_convert_date_trunc_weeks ("DATE_TRUNC('Weeks'" ++ ", d)")
  = (out <- parse_convert_date_trunc_weeks ", d)" ;;
     Ok ("date_trunc('week'" ++ out)).
Proof.
  apply (proj2 (proj2 (keyword_rules_ignore_case "DATE_TRUNC('Weeks'" ", d)")));
    reflexivity.
Defined.

(** X11. Both Pacific abbreviations collapse to one zone name: a text that
    starts with [convert_timezone(] and ['pst'] or ['pdt'], in any letter
    case, is rewritten to [convert_timezone('America/Los_Angeles'] followed
    by the rewriting of the rest. *)
Theorem pacific_zones_collapse :
  forall (kw zone rest : string),
    String.length kw = 17 -> starts_with true "convert_timezone(" kw = true ->
    String.length zone = 5 ->
    starts_with true "'pst'" zone || starts_with true "'pdt'" zone = true ->
    parse_convert_timezone_pacific (kw ++ zone ++ rest)
    = (out <- parse_convert_timezone_pacific rest ;;
       Ok ("convert_timezone('America/Los_Angeles'" ++ out)).
Proof.
  intros kw zone rest Hlen Hst Hz Hzone.
  unfold parse_convert_timezone_pacific, convert_timezone_pacific_steps.
  cbn [subs].
  rewrite !(ReFacts.re_sub_compiled
              _ "convert_timezone('America/Los_Angeles'" _ _ _
              (Compiled.tlits "convert_timezone('America/Los_Angeles'" []) _
              ExtraFacts.compile_convert_timezone_pacific eq_refl).
  cbn [bind]. f_equal.
  destruct (ExtraFacts.convert_timezone_pacific_here kw zone rest
              Hlen Hst Hz Hzone) as [g Hg].
  replace (kw ++ zone ++ rest) with ((kw ++ zone) ++ rest)
    by (rewrite !TextFacts.append_assoc; reflexivity).
  assert (Hne : kw ++ zone <> "")
    by (destruct kw; [discriminate Hlen | discriminate]).
  rewrite (ReFacts.sub_scan_hit_prefix _ _ _ _ _ g Hne Hg).
  rewrite ReFacts.expand_tlits. reflexivity.
Qed.

Lemma pacific_zones_collapse_witness :
  parse_convert_timezone_pacific ("Convert_Timezone(" ++ "'PDT'" ++ ", ts)")
  = (out <- parse_convert_timezone_pacific ", ts)" ;;
     Ok ("convert_timezone('America/Los_Angeles'" ++ out)).
Proof.
  apply pacific_zones_collapse; reflexivity.
Defined.

(** X12. [parse_convert_timezone_utc] changes nothing but the case of
    letters: what it returns has the length and, case ignored, the
    characters of what it got; and although its replacement matches its own
    pattern, applying the rule again changes nothing. *)
Theorem timezone_utc_changes_case_only :
  forall sql : string,
  exists out,
    parse_convert_timezone_utc sql = Ok out /\
    same_letters out sql = true /\
    String.length out = String.length sql /\
    parse_convert_timezone_utc out = Ok out.
Proof.
  intros sql.
  assert (Hrun : forall s,
             parse_convert_timezone_utc s
             = Ok (sub_scan (IGNORECASE +f MULTILINE)
                            (lits "convert_timezone('utc'" REmpty)
                            (Compiled.tlits "convert_timezone('UTC'" []) s 0)).
  { intros s. unfold parse_convert_timezone_utc, convert_timezone_utc_steps.
    cbn [subs].
    rewrite (ReFacts.re_sub_compiled
               "convert_timezone\('utc'" "convert_timezone('UTC'"
               (IGNORECASE +f MULTILINE)
               (lits "convert_timezone('utc'" REmpty) 0
               (Compiled.tlits "convert_timezone('UTC'" []) s);
      [reflexivity | vm_compute; reflexivity | vm_compute; reflexivity]. }
  destruct (ExtraFacts.case_only_scan
              (IGNORECASE +f MULTILINE) "convert_timezone('utc'"
              "convert_timezone('UTC'" eq_refl ltac:(discriminate)
              eq_refl eq_refl (String.length sql) sql (le_n _))
    as [Hsame Hidem].
  eexists. split; [apply Hrun|]. split; [exact Hsame|].
  split; [exact (ExtraFacts.same_letters_length _ _ Hsame)|].
  rewrite Hrun. f_equal. exact Hidem.
Qed.

(** X13. [parse_bool] in column position: a text that starts with [ bool]
    (in any letter case), any whitespace and a comma is rewritten to
    [ boolean,] followed by the rewriting of the rest; the whitespace
    between the type and the comma is dropped. *)
Theorem bool_column_before_comma :
  forall (kw ws rest : string),
    String.length kw = 5 -> starts_with true " bool" kw = true ->
    all_chars is_space ws = true ->
    parse_bool (kw ++ ws ++ "," ++ rest)
    = (out <- parse_bool rest ;; Ok (" boolean," ++ out)).
Proof.
  intros kw ws rest Hlen Hst Hws.
  unfold parse_bool, bool_steps. cbn [subs].
  rewrite !(ReFacts.re_sub_compiled " bool[\s]*([,\n])" _ _ _ _ _ _
              ExtraFacts.compile_bool_column
              ExtraFacts.template_bool_column).
  cbn [bind].
  rewrite !(ReFacts.re_sub_compiled "::[\s]*bool " ":: boolean " _ _ _
              (Compiled.tlits ":: boolean " []) _
              ExtraFacts.compile_bool_cast eq_refl).
  cbn [bind]. f_equal.
  destruct (ExtraFacts.bool_column_here kw ws rest Hlen Hst Hws)
    as (g & Hm & Hg).
  replace (kw ++ ws ++ "," ++ rest) with ((kw ++ ws ++ ",") ++ rest)
    by (rewrite !TextFacts.append_assoc; reflexivity).
  assert (Hne : kw ++ ws ++ "," <> "")
    by (destruct kw; [discriminate Hlen | discriminate]).
  rewrite (ReFacts.sub_scan_hit_prefix _ _ _ _ _ g Hne Hm), Hg.
  apply ExtraFacts.bool_cast_skips.
Qed.

Lemma bool_column_before_comma_witness :
  parse_bool (" BOOL" ++ "  " ++ "," ++ " b bool" ++ nl ++ ")")
  = (out <- parse_bool (" b bool" ++ nl ++ ")") ;;
     Ok (" boolean," ++ out)).
Proof.
  apply bool_column_before_comma; reflexivity.
Defined.

(** X14. [parse_encoding] on a hint followed by a comma: a text that
    starts with a whitespace character, [encode ] (in any letter case),
    anything on the same line and a comma that ends the line, is
    rewritten to a comma followed by the rewriting of the rest;
    everything between the keyword and that comma goes with the hint,
    earlier commas and parentheses included. *)
Theorem encode_hint_deleted_through_comma :
  forall (c : ascii) (kw body rest : string),
    is_space c = true ->
    String.length kw = 7 -> starts_with true "encode " kw = true ->
    all_chars Compiled.not_newline body = true ->
    stops Compiled.not_newline rest = true ->
    parse_encoding (String c (kw ++ body ++ ",") ++ rest)
    = (out <- parse_encoding rest ;; Ok ("," ++ out)).
Proof.
  intros c kw body rest Hc Hlen Hst Hb Hr.
  unfold parse_encoding, encoding_steps. cbn [subs].
  rewrite !(ReFacts.re_sub_compiled "[\s]encode .*," "," _ _ _
              (Compiled.tlits "," []) _
              ExtraFacts.compile_encode_comma eq_refl).
  cbn [bind].
  rewrite !(ReFacts.re_sub_compiled "[\s]encode .*" "" _ _ _ [] _
              ExtraFacts.compile_encode_rest eq_refl).
  cbn [bind].
  rewrite !(ReFacts.re_sub_compiled "[\s]timestamp without time zone"
              " timestamp_ntz(9)" _ _ _
              (Compiled.tlits " timestamp_ntz(9)" []) _
              ExtraFacts.compile_timestamp_ntz eq_refl).
  cbn [bind]. f_equal.
  assert (Hne : String c (kw ++ body ++ ",") <> "") by discriminate.
  rewrite (ReFacts.sub_scan_hit_prefix _ _ _ _ _ [] Hne
             (ExtraFacts.encode_comma_here c kw body rest Hc Hlen Hst Hb Hr)).
  rewrite ReFacts.expand_tlits. cbn [expand].
  change (("," ++ "") ++ ?x) with (String "," x).
  rewrite ExtraFacts.encode_rest_skips_comma.
  apply ExtraFacts.timestamp_ntz_skips_comma.
Qed.

Lemma encode_hint_deleted_through_comma_witness :
  parse_encoding (String " " ("ENCODE " ++ "bytedict, b numeric(10" ++ ",")
                    ++ "")
  = (out <- parse_encoding "" ;; Ok ("," ++ out)).
Proof.
  apply encode_hint_deleted_through_comma; reflexivity.
Defined.

(** X15. [parse_encoding] on a hint that ends its line: a text that
    starts with a whitespace character, [encode ] (in any letter case)
    and anything without a comma up to the end of the line, where the
    text ends or goes on with a line that does not start with [encode ],
    is rewritten as the rest alone is; a closing parenthesis on the line
    of the hint goes with it. *)
Theorem encode_hint_deleted_to_line_end :
  forall (c : ascii) (kw body rest : string),
    is_space c = true ->
    String.length kw = 7 -> starts_with true "encode " kw = true ->
    all_chars (Compiled.lacks ",") body = true ->
    Compiled.line_ends_here rest = true ->
    parse_encoding (String c (kw ++ body) ++ rest) = parse_encoding rest.
Proof.
  intros c kw body rest Hc Hlen Hst Hb Hr.
  unfold parse_encoding, encoding_steps. cbn [subs].
  rewrite !(ReFacts.re_sub_compiled "[\s]encode .*," "," _ _ _
              (Compiled.tlits "," []) _
              ExtraFacts.compile_encode_comma eq_refl).
  cbn [bind].
  rewrite !(ReFacts.re_sub_compiled "[\s]encode .*" "" _ _ _ [] _
              ExtraFacts.compile_encode_rest eq_refl).
  cbn [bind]. do 2 f_equal.
  rewrite (ExtraFacts.encode_comma_passes _ rest
             (ExtraFacts.line_end_no_comma rest Hr)).
  - assert (Hne : String c (kw ++ body) <> "") by discriminate.
    rewrite (ReFacts.sub_scan_hit_prefix _ _ _ _ _ [] Hne
               (ExtraFacts.encode_rest_here c kw body _ Hc Hlen Hst
                  (ExtraFacts.plain_not_newline body Hb)
                  (ExtraFacts.encode_comma_line_end _ rest Hr))).
    reflexivity.
  - rewrite (ReFacts.all_chars_append _ kw body), Hb.
    rewrite (ExtraFacts.encode_word_plain kw Hlen Hst). reflexivity.
Qed.

Lemma encode_hint_deleted_to_line_end_witness :
  parse_encoding (String " " ("encode " ++ "lzo)") ++ nl ++ "diststyle even;")
  = parse_encoding (nl ++ "diststyle even;").
Proof.
  apply encode_hint_deleted_to_line_end; reflexivity.
Defined.

(** X16. [parse_dist_sort] deletes a distribution style: a text that starts
    with a whitespace character, [diststyle ] and one of [all], [even],
    [auto], [key] (all in any letter case) is rewritten as what follows
    the style is. *)
Theorem diststyle_deleted :
  forall (c : ascii) (kw style rest : string),
    is_space c = true ->
    String.length kw = 10 -> starts_with true "diststyle " kw = true ->
    Compiled.is_diststyle style = true ->
    parse_dist_sort (String c (kw ++ style) ++ rest) = parse_dist_sort rest.
Proof.
  intros c kw style rest Hc Hlen Hst Hk.
  unfold parse_dist_sort, dist_sort_steps. cbn [subs].
  rewrite !(ReFacts.re_sub_compiled "[\s]diststyle (all|even|auto|key)" ""
              _ _ _ [] _ ExtraFacts.compile_diststyle_word eq_refl).
  cbn [bind].
  destruct (ExtraFacts.diststyle_here c kw style rest Hc Hlen Hst Hk)
    as [g Hg].
  assert (Hne : String c (kw ++ style) <> "") by discriminate.
  rewrite (ReFacts.sub_scan_hit_prefix _ _ _ _ _ g Hne Hg).
  reflexivity.
Qed.

Lemma diststyle_deleted_witness :
  parse_dist_sort (String " " ("DISTSTYLE " ++ "Even") ++ " sortkey (a);")
  = parse_dist_sort " sortkey (a);".
Proof.
  apply diststyle_deleted; reflexivity.
Defined.

(** X17. [parse_ctas] unwraps a [like] clause: a text that starts with
    [create table ] (in any letter case), anything on the same line, [ (],
    optional whitespace, [like], optional whitespace, a name without
    whitespace and opening parenthesis, and [)] at the end of its line,
    where what follows does not start, whitespace apart, with another
    [)], is rewritten to [create table <table> like <name>] followed by
    the rewriting of the rest; the keywords come out in lower case and
    the whitespace around [like] as single spaces. *)
Theorem create_table_like_unwrapped :
  forall (kw a ws1 lk ws2 b rest : string),
    String.length kw = 13 -> starts_with true "create table " kw = true ->
    all_chars Compiled.not_newline a = true ->
    all_chars is_space ws1 = true ->
    String.length lk = 4 -> starts_with true "like" lk = true ->
    all_chars is_space ws2 = true ->
    all_chars Compiled.name_char b = true ->
    Compiled.statement_ends_here rest = true ->
    parse_ctas (kw ++ a ++ " (" ++ ws1 ++ lk ++ ws2 ++ b ++ ")" ++ rest)
    = (out <- parse_ctas rest ;;
       Ok ("create table " ++ a ++ " like " ++ b ++ out)).
Proof.
  intros kw a ws1 lk ws2 b rest Hlen Hst Ha Hw1 Hlk Hlike Hw2 Hb Hr.
  unfold parse_ctas, ctas_steps. cbn [subs].
  rewrite !(ReFacts.re_sub_compiled
              "create table (.*) \([\s]*like[\s]*(.*)[\s]*\)"
              "create table \1 like \2" _ _ _ _ _
              ExtraFacts.compile_ctas ExtraFacts.template_ctas).
  cbn [bind]. f_equal.
  destruct (ExtraFacts.ctas_here kw a ws1 lk ws2 b rest
              Hlen Hst Ha Hw1 Hlk Hlike Hw2 Hb Hr) as (g & Hm & Hg).
  replace (kw ++ a ++ " (" ++ ws1 ++ lk ++ ws2 ++ b ++ ")" ++ rest)
    with ((kw ++ a ++ " (" ++ ws1 ++ lk ++ ws2 ++ b ++ ")") ++ rest)
    by (rewrite !TextFacts.append_assoc; reflexivity).
  assert (Hne : kw ++ a ++ " (" ++ ws1 ++ lk ++ ws2 ++ b ++ ")" <> "")
    by (destruct kw; [discriminate Hlen | discriminate]).
  rewrite (ReFacts.sub_scan_hit_prefix _ _ _ _ _ g Hne Hm), Hg.
  rewrite !TextFacts.append_assoc. reflexivity.
Qed.

Lemma create_table_like_unwrapped_witness :
  parse_ctas ("CREATE TABLE " ++ "s.new_orders" ++ " (" ++ "" ++ "LIKE" ++ " "
                ++ "s.orders" ++ ")" ++ "")
  = (out <- parse_ctas "" ;;
     Ok ("create table " ++ "s.new_orders" ++ " like " ++ "s.orders" ++ out)).
Proof.
  apply create_table_like_unwrapped; reflexivity.
Defined.
